(** * transformer_learning: attention, masks, dataset items and greedy decoding

    A shallow embedding of the numerical core of the two notebooks
    [Practice/transformer_in_pytorch.ipynb] and [Practice/dot_product_qkv.ipynb].

    Tensors of floating-point numbers are modelled over the real numbers of
    the Standard Library: every statement about weights, sums and bounds is a
    statement of exact arithmetic, which the floating-point results follow
    up to rounding.  Where the code divides zero by zero and so returns NaN
    (a query without features, the deviation of a single feature), the real
    numbers have no counterpart: statements about values carry the
    hypothesis that excludes the case.  A weight that is positive over the
    real numbers can be the float 0, a small exponential being rounded to
    it, so the properties bound weights below by [0 <=].  The softmax helper
    of the exercise notebook, whose rows can underflow as a whole, is
    modelled with the underflow of the float64 exponential and with NaN.
    Integer tensors are over [Z], sizes are [nat], Python exceptions are an
    explicit error type. *)

From Stdlib Require Import Strings.String.
From Stdlib Require Import Reals Lra Lia ZArith QArith List Bool Arith.
Import ListNotations.

Close Scope Q_scope.
Close Scope R_scope.
Close Scope Z_scope.

(** ** Python exceptions and fallible computations *)

Module Py.

Inductive exn : Type :=
| AssertionError
| ValueError
| ZeroDivisionError
| RuntimeError
| IndexError.

Inductive result (A : Type) : Type :=
| Ok (a : A)
| Raise (e : exn).

Arguments Ok {A} a.
Arguments Raise {A} e.

Definition bind {A B : Type} (m : result A) (f : A -> result B) : result B :=
  match m with
  | Ok a => f a
  | Raise e => Raise e
  end.

Definition raises {A : Type} (m : result A) : Prop :=
  exists e, m = Raise e.

End Py.

Import Py.

Notation "x <- m ;; k" := (Py.bind m (fun x => k))
  (at level 61, m at next level, right associativity).

(** ** Two-dimensional tensors

    A tensor is its shape and its entries.  The notebook's tensors carry
    leading batch and head axes on which every operation used here acts
    independently, so one (batch, head) slice is modelled. *)

Module Tensor.

Record tensor (A : Type) : Type := mk {
  rows : nat;
  cols : nat;
  get : nat -> nat -> A
}.

Arguments mk {A} rows cols get.
Arguments rows {A} t.
Arguments cols {A} t.
Arguments get {A} t i j.

Definition map {A B : Type} (f : A -> B) (t : tensor A) : tensor B :=
  mk (rows t) (cols t) (fun i j => f (get t i j)).

Local Open Scope R_scope.

(** Sum of [f 0 .. f (n-1)]. *)
Fixpoint sum_n (f : nat -> R) (n : nat) : R :=
  match n with
  | O => 0
  | S k => sum_n f k + f k
  end.

(** [a @ b]; torch raises a RuntimeError when the inner sizes differ. *)
Definition matmul (a b : tensor R) : result (tensor R) :=
  if Nat.eqb (cols a) (rows b)
  then Ok (mk (rows a) (cols b)
              (fun i j => sum_n (fun k => get a i k * get b k j) (cols a)))
  else Raise RuntimeError.

(** [t.transpose(-2, -1)] *)
Definition transpose {A : Type} (t : tensor A) : tensor A :=
  mk (cols t) (rows t) (fun i j => get t j i).

(** [t / c] for a scalar [c]; a zero [c] raises nothing in torch. *)
Definition div_scalar (t : tensor R) (c : R) : tensor R :=
  map (fun x => x / c) t.

(** [t == c] on an integer tensor *)
Definition eq_scalar (t : tensor Z) (c : Z) : tensor bool :=
  map (fun x => Z.eqb x c) t.

(** Broadcasting of an axis of size [m] against an axis of size [n]:
    allowed when the sizes agree or [m] is 1. *)
Definition broadcastable (m n : nat) : bool :=
  Nat.eqb m n || Nat.eqb m 1.

(** Index into an axis of size [m] broadcast to the index [i]. *)
Definition bidx (m i : nat) : nat :=
  if Nat.eqb m 1 then O else i.

(** Entry [(i, j)] of [t] once broadcast to a larger shape. *)
Definition bget {A : Type} (t : tensor A) (i j : nat) : A :=
  get t (bidx (rows t) i) (bidx (cols t) j).

(** [t.masked_fill_(mask, v)]: entries where the (broadcast) mask is true
    are replaced by [v]. *)
Definition masked_fill (t : tensor R) (mask : tensor bool) (v : R)
  : result (tensor R) :=
  if broadcastable (rows mask) (rows t) && broadcastable (cols mask) (cols t)
  then Ok (mk (rows t) (cols t)
              (fun i j => if bget mask i j then v else get t i j))
  else Raise RuntimeError.

(** [t.softmax(dim=-1)] *)
Definition softmax (t : tensor R) : tensor R :=
  mk (rows t) (cols t)
     (fun i j => exp (get t i j) / sum_n (fun k => exp (get t i k)) (cols t)).

(** Sum of row [i]. *)
Definition row_sum (t : tensor R) (i : nat) : R :=
  sum_n (get t i) (cols t).

End Tensor.

Import Tensor.

(** ** Scaled dot-product attention: [MultiHeadAttentionBlock.attention] *)

Module Attention.

Local Open Scope R_scope.

(** The fill value [-1e9]. *)
Definition neg_1e9 : R := - 1000000000.

(** The scores as they stand just before [softmax].  For a query without
    features ([d_k = 0]) torch divides 0 by [sqrt 0] and every unmasked
    score is NaN; the quotient below is a score only when [0 < d_k]. *)
Definition masked_scores (query key : tensor R) (mask : option (tensor Z))
  : result (tensor R) :=
  let d_k := cols query in
  attention_scores <- matmul query (transpose key) ;;
  let attention_scores := div_scalar attention_scores (sqrt (INR d_k)) in
  match mask with
  | Some m => masked_fill attention_scores (eq_scalar m 0%Z) neg_1e9
  | None => Ok attention_scores
  end.

(** [dropout] is [None] or the callable applied to the weights. *)
Definition attention (query key value : tensor R) (mask : option (tensor Z))
    (dropout : option (tensor R -> tensor R))
  : result (tensor R * tensor R) :=
  attention_scores <- masked_scores query key mask ;;
  let attention_scores := softmax attention_scores in
  let attention_scores :=
    match dropout with
    | Some f => f attention_scores
    | None => attention_scores
    end in
  out <- matmul attention_scores value ;;
  Ok (out, attention_scores).

(** A dropout that leaves the weights as they are: absent, or a layer in
    evaluation mode. *)
Definition inactive (dropout : option (tensor R -> tensor R)) : Prop :=
  match dropout with
  | Some f => forall t, f t = t
  | None => True
  end.

(** Tolerance under which a weight counts as approximately zero. *)
Definition tol : R := / 1000000.

Definition approx_zero (x : R) : Prop := Rabs x <= tol.

(** Key position [j] is hidden from query [i] by [mask]. *)
Definition hidden (mask : tensor Z) (i j : nat) : Prop :=
  bget mask i j = 0%Z.

(** The shapes torch accepts for [attention] with a mask. *)
Definition shapes_ok (query key value : tensor R) (mask : tensor Z) : bool :=
  Nat.eqb (cols query) (cols key)
  && broadcastable (rows mask) (rows query)
  && broadcastable (cols mask) (rows key)
  && Nat.eqb (rows key) (rows value).

End Attention.

(** ** The causal mask: [casual_mask] *)

Module Masks.

(** [torch.ones(size, size)] followed by [.type(torch.int)]: the cast of the
    floating-point entries 1.0 and 0.0 is taken at once. *)
Definition ones (r c : nat) : tensor Z := mk r c (fun _ _ => 1%Z).

(** [torch.triu(t, diagonal)]: entries on and above the given diagonal are
    kept, the others are zero. *)
Definition triu (t : tensor Z) (diagonal : Z) : tensor Z :=
  mk (rows t) (cols t)
     (fun i j => if (diagonal <=? Z.of_nat j - Z.of_nat i)%Z
                 then get t i j else 0%Z).

Definition casual_mask (size : nat) : tensor bool :=
  let mask := triu (ones size size) 1 in
  eq_scalar mask 0%Z.

(** [.int()] and [.type_as] of a boolean tensor. *)
Definition to_int (t : tensor bool) : tensor Z :=
  Tensor.map (fun b : bool => if b then 1%Z else 0%Z) t.

End Masks.

Import Masks.

(** ** Construction of a multi-head attention block *)

Module MHA.

Local Open Scope Z_scope.

(** Python's [%] and [//] on integers: floor semantics, ZeroDivisionError on
    a zero divisor. *)
Definition py_mod (a b : Z) : result Z :=
  if b =? 0 then Raise ZeroDivisionError else Ok (a mod b).

Definition py_floordiv (a b : Z) : result Z :=
  if b =? 0 then Raise ZeroDivisionError else Ok (a / b).

Definition py_assert (b : bool) : result unit :=
  if b then Ok tt else Raise AssertionError.

(** [nn.Linear(in_features, out_features)] allocates a weight of that shape;
    a negative size is refused by the framework. *)
Definition Linear (in_features out_features : Z) : result (Z * Z) :=
  if (in_features <? 0) || (out_features <? 0)
  then Raise RuntimeError else Ok (in_features, out_features).

(** [nn.Dropout(p)] refuses a probability outside [0, 1]. *)
Definition Dropout (p : Q) : result Q :=
  if (Qle_bool 0 p && Qle_bool p 1)%bool then Ok p else Raise ValueError.

Record MultiHeadAttentionBlock : Type := {
  d_model : Z;
  h : Z;
  d_k : Z;
  w_q : Z * Z;
  w_k : Z * Z;
  w_v : Z * Z;
  w_o : Z * Z;
  dropout : Q
}.

Definition init (d_model h : Z) (dropout : Q) : result MultiHeadAttentionBlock :=
  r <- py_mod d_model h ;;
  _ <- py_assert (r =? 0) ;;
  d_k <- py_floordiv d_model h ;;
  w_q <- Linear d_model d_model ;;
  w_k <- Linear d_model d_model ;;
  w_v <- Linear d_model d_model ;;
  w_o <- Linear d_model d_model ;;
  dropout <- Dropout dropout ;;
  Ok {| d_model := d_model; h := h; d_k := d_k;
        w_q := w_q; w_k := w_k; w_v := w_v; w_o := w_o;
        dropout := dropout |}.

End MHA.

(** ** The positional encoding table: [PositionalEncoding.__init__] *)

Module PositionalEncoding.

Local Open Scope R_scope.

Definition zeros (r c : nat) : tensor R := mk r c (fun _ _ => 0).

(** [torch.arange(0, n, dtype=torch.float).unsqueeze(1)]: a column. *)
Definition arange_column (n : nat) : tensor R :=
  mk n 1 (fun i _ => INR i).

(** [torch.arange(0, n, 2).float()]: the row 0, 2, 4, ... below [n]. *)
Definition arange_step2 (n : nat) : tensor R :=
  mk 1 ((n + 1) / 2) (fun _ k => INR (2 * k)).

Definition mul_scalar (t : tensor R) (c : R) : tensor R :=
  Tensor.map (fun x => x * c) t.

(** Size of an axis after broadcasting two axes against each other. *)
Definition bsize (m n : nat) : option nat :=
  if Nat.eqb m n then Some m
  else if Nat.eqb m 1 then Some n
  else if Nat.eqb n 1 then Some m
  else None.

(** Elementwise product with broadcasting. *)
Definition mul (a b : tensor R) : result (tensor R) :=
  match bsize (rows a) (rows b), bsize (cols a) (cols b) with
  | Some r, Some c => Ok (mk r c (fun i j => bget a i j * bget b i j))
  | _, _ => Raise RuntimeError
  end.

(** Number of indices [start, start + 2, ...] below [n]. *)
Definition slice2_len (start n : nat) : nat := (n - start + 1) / 2.

(** [t[:, start::2] = src]: the columns [start, start + 2, ...] of [t] are
    overwritten with [src], broadcast to the shape of the slice. *)
Definition set_cols_step2 (t : tensor R) (start : nat) (src : tensor R)
  : result (tensor R) :=
  if broadcastable (rows src) (rows t)
     && broadcastable (cols src) (slice2_len start (cols t))
  then Ok (mk (rows t) (cols t)
              (fun i j => if Nat.leb start j && Nat.even (j - start)
                          then bget src i ((j - start) / 2)
                          else get t i j))
  else Raise RuntimeError.

(** The buffer [pe] before its batch axis is added. *)
Definition init (d_model seq_len : nat) : result (tensor R) :=
  let pe := zeros seq_len d_model in
  let position := arange_column seq_len in
  c <- (if Nat.eqb d_model 0 then Raise ZeroDivisionError
        else Ok (- ln 10000 / INR d_model)) ;;
  let div_term := Tensor.map exp (mul_scalar (arange_step2 d_model) c) in
  angle <- mul position div_term ;;
  pe <- set_cols_step2 pe 0 (Tensor.map sin angle) ;;
  angle <- mul position div_term ;;
  pe <- set_cols_step2 pe 1 (Tensor.map cos angle) ;;
  Ok pe.

(** The angle at position [pos] for the pair of columns [2k] and [2k + 1]. *)
Definition angle (d_model pos k : nat) : R :=
  INR pos * exp (INR (2 * k) * (- ln 10000 / INR d_model)).

End PositionalEncoding.

(** ** Tokenizers, as far as the notebook uses them *)

Module Tokenizers.

Record Tokenizer : Type := {
  token_to_id : String.string -> Z;
  encode_ids : String.string -> list Z      (* [encode(text).ids] *)
}.

End Tokenizers.

Import Tokenizers.

(** ** Dataset items: [BilingualDataset.__getitem__] *)

Module Dataset.

Local Open Scope Z_scope.

Record BilingualDataset : Type := {
  seq_len : Z;
  ds : list (String.string * String.string);   (* source and target text *)
  tokenizer_src : Tokenizer;
  tokenizer_tgt : Tokenizer;
  sos_token : Z;
  eos_token : Z;
  pad_token : Z
}.

Definition new (ds : list (String.string * String.string))
    (tokenizer_src tokenizer_tgt : Tokenizer) (seq_len : Z) : BilingualDataset :=
  {| seq_len := seq_len;
     ds := ds;
     tokenizer_src := tokenizer_src;
     tokenizer_tgt := tokenizer_tgt;
     sos_token := token_to_id tokenizer_tgt "[SOS]"%string;
     eos_token := token_to_id tokenizer_tgt "[EOS]"%string;
     pad_token := token_to_id tokenizer_tgt "[PAD]"%string |}.

Record item : Type := {
  encoder_input : list Z;
  decoder_input : list Z;
  encoder_mask : list Z;          (* shape (1, 1, seq_len) *)
  decoder_mask : tensor Z;        (* shape (1, seq_len, seq_len) *)
  label : list Z;
  src_text : String.string;
  tgt_text : String.string
}.

(** Python's [[x] * n]: empty when [n] is not positive. *)
Definition py_repeat (x : Z) (n : Z) : list Z := repeat x (Z.to_nat n).

Definition len (l : list Z) : Z := Z.of_nat (length l).

(** [(t != pad).int()] on a sequence of ids. *)
Definition ne_int (t : list Z) (pad : Z) : list Z :=
  List.map (fun x => if x =? pad then 0 else 1) t.

(** [m.unsqueeze(0).unsqueeze(0) & c]: a row of integers broadcast over the
    rows of a square boolean tensor. *)
Definition and_mask (m : list Z) (c : tensor bool) : tensor Z :=
  mk (rows c) (cols c)
     (fun i j => Z.land (nth j m 0) (if get c i j then 1 else 0)).

Definition getitem (self : BilingualDataset) (index : nat) : result item :=
  match nth_error (ds self) index with
  | None => Raise IndexError
  | Some (src_text, tgt_text) =>
    let enc_input_tokens := encode_ids (tokenizer_src self) src_text in
    let dec_input_tokens := encode_ids (tokenizer_tgt self) tgt_text in
    let enc_num_padding_tokens := seq_len self - len enc_input_tokens - 2 in
    let dec_num_padding_tokens := seq_len self - len dec_input_tokens - 1 in
    if (enc_num_padding_tokens <? 0) || (dec_num_padding_tokens <? 0)
    then Raise ValueError
    else
      let encoder_input :=
        [sos_token self] ++ enc_input_tokens ++ [eos_token self]
          ++ py_repeat (pad_token self) enc_num_padding_tokens in
      let decoder_input :=
        [sos_token self] ++ dec_input_tokens
          ++ py_repeat (pad_token self) dec_num_padding_tokens in
      let label :=
        dec_input_tokens ++ [eos_token self]
          ++ py_repeat (pad_token self) dec_num_padding_tokens in
      _ <- MHA.py_assert (len encoder_input =? seq_len self) ;;
      _ <- MHA.py_assert (len decoder_input =? seq_len self) ;;
      _ <- MHA.py_assert (len label =? seq_len self) ;;
      Ok {| encoder_input := encoder_input;
            decoder_input := decoder_input;
            encoder_mask := ne_int encoder_input (pad_token self);
            decoder_mask :=
              and_mask (ne_int decoder_input (pad_token self))
                       (casual_mask (length decoder_input));
            label := label;
            src_text := src_text;
            tgt_text := tgt_text |}
  end.

(** The item built once the length check has passed. *)
Definition built_item (self : BilingualDataset) (src tgt : String.string) : item :=
  let enc := encode_ids (tokenizer_src self) src in
  let dec := encode_ids (tokenizer_tgt self) tgt in
  let encoder_input :=
    [sos_token self] ++ enc ++ [eos_token self]
      ++ py_repeat (pad_token self) (seq_len self - len enc - 2) in
  let decoder_input :=
    [sos_token self] ++ dec
      ++ py_repeat (pad_token self) (seq_len self - len dec - 1) in
  {| encoder_input := encoder_input;
     decoder_input := decoder_input;
     encoder_mask := ne_int encoder_input (pad_token self);
     decoder_mask :=
       and_mask (ne_int decoder_input (pad_token self))
                (casual_mask (length decoder_input));
     label := dec ++ [eos_token self]
                ++ py_repeat (pad_token self) (seq_len self - len dec - 1);
     src_text := src;
     tgt_text := tgt |}.

End Dataset.

(** ** The softmax helper of the attention exercise *)

Module NumpySoftmax.

Local Open Scope R_scope.

(** A float64 that a division returns: a number, an infinity or NaN. *)
Inductive float : Type :=
| Num (r : R)
| PosInf
| NegInf
| NaN.

(** Maximum of [f 0 .. f k]. *)
Fixpoint max_upto (f : nat -> R) (k : nat) : R :=
  match k with
  | O => f O
  | S k' => Rmax (max_upto f k') (f k)
  end.

(** [np.max(x)]: the maximum over the whole array; a zero-size array has
    none. *)
Definition np_max (x : tensor R) : result R :=
  if Nat.eqb (rows x) 0 || Nat.eqb (cols x) 0
  then Raise ValueError
  else Ok (max_upto (fun i => max_upto (get x i) (cols x - 1)) (rows x - 1)).

(** [x - c] *)
Definition sub_scalar (x : tensor R) (c : R) : tensor R :=
  Tensor.map (fun v => v - c) x.

(** The greatest argument at which the float64 exponential is 0.0: the
    logarithm of [2^-1075], half the least positive float64 (about
    -745.13). *)
Definition exp_underflow : R := - (1075 * ln 2).

(** The float64 exponential of an argument that is at most 0. *)
Definition exp64 (t : R) : R :=
  if Rle_dec t exp_underflow then 0 else exp t.

Definition np_exp (x : tensor R) : tensor R := Tensor.map exp64 x.

(** [x.sum(axis=-1, keepdims=True)] *)
Definition sum_keepdims (x : tensor R) : tensor R :=
  mk (rows x) 1 (fun i _ => row_sum x i).

(** float64 division: a zero divisor raises nothing, [0 / 0] is NaN and
    [a / 0] an infinity. *)
Definition div64 (a b : R) : float :=
  if Req_dec_T b 0
  then if Req_dec_T a 0 then NaN
       else if Rlt_dec 0 a then PosInf else NegInf
  else Num (a / b).

(** [a / b] with broadcasting; numpy raises a ValueError when the shapes
    cannot be broadcast together. *)
Definition div (a b : tensor R) : result (tensor float) :=
  match PositionalEncoding.bsize (rows a) (rows b),
        PositionalEncoding.bsize (cols a) (cols b) with
  | Some r, Some c => Ok (mk r c (fun i j => div64 (bget a i j) (bget b i j)))
  | _, _ => Raise ValueError
  end.

(** The array [x - np.max(x)] whose exponential is taken. *)
Definition shifted (x : tensor R) : result (tensor R) :=
  m <- np_max x ;;
  Ok (sub_scalar x m).

Definition softmax (x : tensor R) : result (tensor float) :=
  s <- shifted x ;;
  let exp_x := np_exp s in
  s' <- shifted x ;;
  div (np_exp s') (sum_keepdims exp_x).

(** The helper without the recomputation, as the specification words it:
    [exp_x / exp_x.sum(axis=-1, keepdims=True)] where
    [exp_x = exp(x - max(x))]. *)
Definition softmax_nonredundant (x : tensor R) : result (tensor float) :=
  s <- shifted x ;;
  let exp_x := np_exp s in
  div exp_x (sum_keepdims exp_x).

(** Maximum of row [i]. *)
Definition row_max (x : tensor R) (i : nat) : R :=
  max_upto (get x i) (cols x - 1).

(** The softmax as the specification words it: the maximum of each row is
    subtracted from that row before the exponential. *)
Definition softmax_row_max (x : tensor R) : result (tensor float) :=
  if Nat.eqb (cols x) 0
  then Raise ValueError
  else
    let exp_x := np_exp (mk (rows x) (cols x)
                            (fun i j => get x i j - row_max x i)) in
    div exp_x (sum_keepdims exp_x).

(** A row of numbers [p 0 .. p (n-1)]. *)
Definition row_is (y : tensor float) (i : nat) (p : nat -> R) : Prop :=
  forall j, (j < cols y)%nat -> get y i j = Num (p j).

(** A row of NaN. *)
Definition row_nan (y : tensor float) (i : nat) : Prop :=
  forall j, (j < cols y)%nat -> get y i j = NaN.

End NumpySoftmax.

(** ** Greedy decoding: [greedy_decode] *)

Module Greedy.

(** Result of running a loop with a bound on its iterations. *)
Inductive outcome (A : Type) : Type :=
| Returned (a : A)
| Raised (e : exn)
| OutOfFuel.

Arguments Returned {A} a.
Arguments Raised {A} e.
Arguments OutOfFuel {A}.

Section Decode.

(** Encoder output and per-position decoder output are left abstract. *)
Variables Enc Hidden : Type.

(** The three entry points of [Transformer] that decoding uses. *)
Record Transformer : Type := {
  encode : list Z -> list Z -> Enc;
  decode : Enc -> list Z -> list Z -> tensor Z -> list Hidden;
  project : Hidden -> list Q
}.

(** The calls made on the model and on [casual_mask], in order. *)
Inductive call : Type :=
| CallEncode (source source_mask : list Z)
| CallCasualMask (size : nat)
| CallDecode (decoder_input : list Z) (decoder_mask : tensor Z)
| CallProject (x : Hidden).

(** Computations that log their calls and may raise or run out of fuel. *)
Definition M (A : Type) : Type := list call -> outcome A * list call.

Definition ret {A : Type} (a : A) : M A := fun log => (Returned a, log).

Definition bindM {A B : Type} (m : M A) (f : A -> M B) : M B :=
  fun log =>
    match m log with
    | (Returned a, log') => f a log'
    | (Raised e, log') => (Raised e, log')
    | (OutOfFuel, log') => (OutOfFuel, log')
    end.

Definition emit (c : call) : M unit := fun log => (Returned tt, log ++ [c]).

Definition lift {A : Type} (r : result A) : M A :=
  fun log =>
    match r with
    | Ok a => (Returned a, log)
    | Raise e => (Raised e, log)
    end.

Definition out_of_fuel {A : Type} : M A := fun log => (OutOfFuel, log).

Notation "x <~ m ;; k" := (bindM m (fun x => k))
  (at level 61, m at next level, right associativity).

Definition call_encode (model : Transformer) (source source_mask : list Z)
  : M Enc :=
  _ <~ emit (CallEncode source source_mask) ;;
  ret (encode model source source_mask).

Definition call_casual_mask (size : nat) : M (tensor bool) :=
  _ <~ emit (CallCasualMask size) ;;
  ret (casual_mask size).

Definition call_decode (model : Transformer) (encoder_output : Enc)
    (source_mask decoder_input : list Z) (decoder_mask : tensor Z)
  : M (list Hidden) :=
  _ <~ emit (CallDecode decoder_input decoder_mask) ;;
  ret (decode model encoder_output source_mask decoder_input decoder_mask).

Definition call_project (model : Transformer) (x : Hidden) : M (list Q) :=
  _ <~ emit (CallProject x) ;;
  ret (project model x).

(** [out[:, -1]]: the output at the last position. *)
Fixpoint last_position (out : list Hidden) : result Hidden :=
  match out with
  | [] => Raise IndexError
  | [x] => Ok x
  | _ :: out' => last_position out'
  end.

(** Index of the first maximum of [l], [best] at index [best_i] being the
    maximum so far and [i] the index of the head of [l]. *)
Fixpoint argmax_from (best : Q) (best_i i : nat) (l : list Q) : nat :=
  match l with
  | [] => best_i
  | x :: l' =>
      if Qle_bool x best
      then argmax_from best best_i (S i) l'
      else argmax_from x i (S i) l'
  end.

(** The index returned by [torch.max(prob, dim=1)]. *)
Definition torch_max (prob : list Q) : result Z :=
  match prob with
  | [] => Raise IndexError
  | x :: l => Ok (Z.of_nat (argmax_from x 0 1 l))
  end.

Fixpoint greedy_loop (fuel : nat) (model : Transformer) (source_mask : list Z)
    (eos_idx max_len : Z) (encoder_output : Enc) (decoder_input : list Z)
  : M (list Z) :=
  match fuel with
  | O => out_of_fuel
  | S fuel' =>
      if (Z.of_nat (length decoder_input) =? max_len)%Z
      then ret decoder_input
      else
        decoder_mask <~ call_casual_mask (length decoder_input) ;;
        let decoder_mask := to_int decoder_mask in
        out <~ call_decode model encoder_output source_mask decoder_input
                           decoder_mask ;;
        x <~ lift (last_position out) ;;
        prob <~ call_project model x ;;
        next_word <~ lift (torch_max prob) ;;
        let decoder_input := decoder_input ++ [next_word] in
        if (next_word =? eos_idx)%Z
        then ret decoder_input
        else greedy_loop fuel' model source_mask eos_idx max_len
                         encoder_output decoder_input
  end.

Definition greedy_decode (fuel : nat) (model : Transformer)
    (source source_mask : list Z) (tokenizer_src tokenizer_tgt : Tokenizer)
    (max_len : Z) : M (list Z) :=
  let sos_idx := token_to_id tokenizer_tgt "[SOS]"%string in
  let eos_idx := token_to_id tokenizer_tgt "[EOS]"%string in
  encoder_output <~ call_encode model source source_mask ;;
  let decoder_input := [sos_idx] in
  greedy_loop fuel model source_mask eos_idx max_len encoder_output
              decoder_input.

(** Running a computation from an empty log. *)
Definition run {A : Type} (m : M A) : outcome A * list call := m [].

(** The token one iteration appends to [decoder_input]. *)
Definition next_token (model : Transformer) (encoder_output : Enc)
    (source_mask decoder_input : list Z) : result Z :=
  let decoder_mask := to_int (casual_mask (length decoder_input)) in
  x <- last_position
         (decode model encoder_output source_mask decoder_input decoder_mask) ;;
  torch_max (project model x).

(** The calls of the iteration that starts from [decoder_input] and appends
    a token. *)
Definition iteration_calls (model : Transformer) (encoder_output : Enc)
    (source_mask decoder_input : list Z) : list call :=
  let decoder_mask := to_int (casual_mask (length decoder_input)) in
  let out :=
    decode model encoder_output source_mask decoder_input decoder_mask in
  CallCasualMask (length decoder_input)
    :: CallDecode decoder_input decoder_mask
    :: match last_position out with
       | Ok x => [CallProject x]
       | Raise _ => []
       end.

Definition is_encode (c : call) : bool :=
  match c with
  | CallEncode _ _ => true
  | _ => false
  end.

(** Sizes of the causal masks built, in order. *)
Definition mask_sizes (log : list call) : list nat :=
  flat_map (fun c => match c with
                     | CallCasualMask size => [size]
                     | _ => []
                     end) log.

(** Lengths of the decoder inputs handed to [decode], in order. *)
Definition decode_lengths (log : list call) : list nat :=
  flat_map (fun c => match c with
                     | CallDecode decoder_input _ => [length decoder_input]
                     | _ => []
                     end) log.

(** A model whose decoder returns at least one position for a non-empty
    input and whose projection is over a non-empty vocabulary. *)
Definition well_shaped (model : Transformer) : Prop :=
  (forall enc m tgt tm, tgt <> [] -> decode model enc m tgt tm <> [])
  /\ (forall x, project model x <> []).

End Decode.

Arguments encode {Enc Hidden} t.
Arguments decode {Enc Hidden} t.
Arguments project {Enc Hidden} t.
Arguments CallEncode {Hidden} source source_mask.
Arguments CallCasualMask {Hidden} size.
Arguments CallDecode {Hidden} decoder_input decoder_mask.
Arguments CallProject {Hidden} x.
Arguments greedy_loop {Enc Hidden}.
Arguments greedy_decode {Enc Hidden}.
Arguments next_token {Enc Hidden}.
Arguments iteration_calls {Enc Hidden}.
Arguments run {Hidden A}.
Arguments is_encode {Hidden}.
Arguments mask_sizes {Hidden}.
Arguments decode_lengths {Hidden}.
Arguments well_shaped {Enc Hidden}.
Arguments last_position {Hidden}.

(** A model whose projection puts all its mass on token 3, the id of
    [[EOS]] in the notebook's tokenizers. *)
Definition eos_model : Transformer unit unit :=
  {| encode := fun _ _ => tt;
     decode := fun _ _ tgt _ => List.map (fun _ => tt) tgt;
     project := fun _ => [0; 0; 0; 1]%Q |}.

(** A model whose projection puts all its mass on token 0. *)
Definition never_eos_model : Transformer unit unit :=
  {| encode := fun _ _ => tt;
     decode := fun _ _ tgt _ => List.map (fun _ => tt) tgt;
     project := fun _ => [1; 0; 0; 0]%Q |}.

(** Ids of the special tokens as [WordLevelTrainer] assigns them. *)
Definition special_ids : Tokenizer :=
  {| token_to_id := fun s =>
       if String.eqb s "[UNK]" then 0%Z
       else if String.eqb s "[PAD]" then 1%Z
       else if String.eqb s "[SOS]" then 2%Z
       else if String.eqb s "[EOS]" then 3%Z
       else 0%Z;
     encode_ids := fun _ => [] |}.

End Greedy.

(** ** Small concrete tensors used in the examples below *)

Module Examples.

Local Open Scope R_scope.

(** An [r] by [c] tensor filled with [v]. *)
Definition full {A : Type} (r c : nat) (v : A) : tensor A :=
  mk r c (fun _ _ => v).

(** One query, two keys; the mask hides key 0 and shows key 1. *)
Definition mask_hide_first : tensor Z :=
  mk 1 2 (fun _ j => match j with O => 0%Z | _ => 1%Z end).

(** [nn.Dropout(1.0)] in training mode: every weight is dropped. *)
Definition drop_all (t : tensor R) : tensor R :=
  Tensor.map (fun _ => 0) t.

(** The array [[0], [1]] of two rows with different maxima. *)
Definition two_rows : tensor R :=
  mk 2 1 (fun i _ => match i with O => 0 | _ => 1 end).

(** The array [[0, 1], [-2000, -2001]]: the second row lies far below the
    maximum of the first. *)
Definition far_rows : tensor R :=
  mk 2 2 (fun i j => match i, j with
                     | O, O => 0
                     | O, _ => 1
                     | _, O => - 2000
                     | _, _ => - 2001
                     end).

(** Two keys of one feature, [-2e9] and [0]. *)
Definition low_first_key : tensor R :=
  mk 2 1 (fun i _ => match i with O => - 2000000000 | _ => 0 end).

(** A word-level tokenizer giving the id 7 to every character. *)
Definition char_tokenizer : Tokenizer :=
  {| token_to_id := token_to_id Greedy.special_ids;
     encode_ids := fun s => List.map (fun _ => 7%Z) (list_ascii_of_string s) |}.

(** One sentence pair of five and two tokens, sequences of length 10. *)
Definition toy_dataset : Dataset.BilingualDataset :=
  Dataset.new [("abcde", "ab")%string] char_tokenizer char_tokenizer 10.

End Examples.

(** ** Further concrete inputs *)

Module MoreExamples.

Local Open Scope R_scope.

(** Two key rows: 5 in the first, 0 in the second. *)
Definition two_rows_swapped : tensor R :=
  mk 2 1 (fun i _ => match i with O => 5 | _ => 0 end).

(** Three validation batches, each holding the item of the toy dataset
    built from five source and two target tokens. *)
Definition three_batches : list (list Dataset.item) :=
  let it := Dataset.built_item Examples.toy_dataset "abcde" "ab" in
  [[it]; [it]; [it]].

End MoreExamples.

(** ** Forward passes of the layers *)

Module Layers.

Local Open Scope R_scope.

(** Elementwise sum with broadcasting. *)
Definition add (a b : tensor R) : result (tensor R) :=
  match PositionalEncoding.bsize (rows a) (rows b),
        PositionalEncoding.bsize (cols a) (cols b) with
  | Some r, Some c => Ok (mk r c (fun i j => bget a i j + bget b i j))
  | _, _ => Raise RuntimeError
  end.

(** [torch.relu] *)
Definition relu (t : tensor R) : tensor R := Tensor.map (Rmax 0) t.

(** [torch.log_softmax(t, dim=-1)] *)
Definition log_softmax (t : tensor R) : tensor R :=
  mk (rows t) (cols t)
     (fun i j => get t i j - ln (sum_n (fun k => exp (get t i k)) (cols t))).

(** A dropout layer that leaves its input as it is: evaluation mode. *)
Definition identity (dropout : tensor R -> tensor R) : Prop :=
  forall t, dropout t = t.

End Layers.

(** [nn.Linear]: [x @ weight.T + bias], the weight having one row per
    output feature. *)

Module LinearLayer.

Local Open Scope R_scope.

Record t : Type := {
  in_features : nat;
  out_features : nat;
  weight : nat -> nat -> R;
  bias : nat -> R
}.

Definition weight_tensor (self : t) : tensor R :=
  mk (out_features self) (in_features self) (weight self).

Definition bias_tensor (self : t) : tensor R :=
  mk 1 (out_features self) (fun _ j => bias self j).

Definition forward (self : t) (x : tensor R) : result (tensor R) :=
  y <- matmul x (transpose (weight_tensor self)) ;;
  Layers.add y (bias_tensor self).

End LinearLayer.

(** [InputEmbeddings]: lookup in the embedding table, scaled by
    [sqrt(d_model)]. *)

Module InputEmbeddings.

Local Open Scope R_scope.

Record t : Type := {
  d_model : nat;
  vocab_size : nat;
  embedding : nat -> nat -> R       (* weight of [nn.Embedding] *)
}.

Definition in_vocab (self : t) (id : Z) : bool :=
  ((0 <=? id) && (id <? Z.of_nat (vocab_size self)))%Z.

(** [self.embedding(x)]: an id outside the table raises an IndexError. *)
Definition lookup (self : t) (x : list Z) : result (tensor R) :=
  if forallb (in_vocab self) x
  then Ok (mk (length x) (d_model self)
              (fun i j => embedding self (Z.to_nat (nth i x 0%Z)) j))
  else Raise IndexError.

Definition forward (self : t) (x : list Z) : result (tensor R) :=
  e <- lookup self x ;;
  Ok (PositionalEncoding.mul_scalar e (sqrt (INR (d_model self)))).

End InputEmbeddings.

(** [PositionalEncoding.forward] *)

Module PositionalEncodingLayer.

Local Open Scope R_scope.

Record t : Type := {
  pe : tensor R;                       (* the buffer, without its batch axis *)
  dropout : tensor R -> tensor R
}.

(** [pe[:, :n, :]] *)
Definition first_rows (pe : tensor R) (n : nat) : tensor R :=
  mk (Nat.min n (rows pe)) (cols pe) (get pe).

Definition forward (self : t) (x : tensor R) : result (tensor R) :=
  x <- Layers.add x (first_rows (pe self) (rows x)) ;;
  Ok (dropout self x).

End PositionalEncodingLayer.

(** [LayerNormalization] *)

Module LayerNormalization.

Local Open Scope R_scope.

Record t : Type := {
  eps : R;
  alpha : R;
  bias : R
}.

(** [LayerNormalization()]: [eps = 10**-6], [alpha] one, [bias] zero. *)
Definition init : t := {| eps := / 1000000; alpha := 1; bias := 0 |}.

(** [x.mean(dim=-1, keepdim=True)] *)
Definition mean (x : tensor R) (i : nat) : R :=
  row_sum x i / INR (cols x).

(** [x.std(dim=-1, keepdim=True)]: the estimator with [n - 1] in the
    denominator.  For a single feature torch divides 0 by 0 and the
    deviation is NaN; the quotient below is a deviation only for two
    features or more. *)
Definition std (x : tensor R) (i : nat) : R :=
  sqrt (sum_n (fun j => (get x i j - mean x i) * (get x i j - mean x i))
              (cols x)
        / INR (cols x - 1)).

Definition forward (self : t) (x : tensor R) : tensor R :=
  mk (rows x) (cols x)
     (fun i j => alpha self * (get x i j - mean x i) / (std x i + eps self)
                 + bias self).

End LayerNormalization.

(** [FeedForwardBlock] *)

Module FeedForwardBlock.

Record t : Type := {
  linear_1 : LinearLayer.t;
  dropout : tensor R -> tensor R;
  linear_2 : LinearLayer.t
}.

Definition forward (self : t) (x : tensor R) : result (tensor R) :=
  h <- LinearLayer.forward (linear_1 self) x ;;
  LinearLayer.forward (linear_2 self) (dropout self (Layers.relu h)).

End FeedForwardBlock.

(** [ProjectionLayer] *)

Module ProjectionLayer.

Record t : Type := {
  proj : LinearLayer.t
}.

Definition forward (self : t) (x : tensor R) : result (tensor R) :=
  y <- LinearLayer.forward (proj self) x ;;
  Ok (Layers.log_softmax y).

End ProjectionLayer.

(** [ResidualConnection] *)

Module ResidualConnection.

Record t : Type := {
  dropout : tensor R -> tensor R;
  norm : LayerNormalization.t
}.

Definition forward (self : t) (x : tensor R)
    (sublayer : tensor R -> result (tensor R)) : result (tensor R) :=
  y <- sublayer (LayerNormalization.forward (norm self) x) ;;
  Layers.add x (dropout self y).

End ResidualConnection.

(** [MultiHeadAttentionBlock.forward], for one element of the batch.
    The tensor of shape (h, L, d_k) obtained by [view] and [transpose] is
    the list of its [h] heads. *)

Module MultiHeadAttention.

Local Open Scope R_scope.

Record t : Type := {
  h : nat;
  d_k : nat;
  w_q : LinearLayer.t;
  w_k : LinearLayer.t;
  w_v : LinearLayer.t;
  w_o : LinearLayer.t;
  dropout : tensor R -> tensor R
}.

Fixpoint mapM {A B : Type} (f : A -> result B) (l : list A) : result (list B) :=
  match l with
  | [] => Ok []
  | a :: l' =>
      b <- f a ;;
      bs <- mapM f l' ;;
      Ok (b :: bs)
  end.

(** Head [a] of [x]: the columns [a * d_k] to [a * d_k + d_k - 1]. *)
Definition head (x : tensor R) (d_k a : nat) : tensor R :=
  mk (rows x) d_k (fun i c => get x i (a * d_k + c)).

(** [x.view(x.shape[0], x.shape[1], h, d_k).transpose(1, 2)]: the number of
    elements must be kept. *)
Definition split_heads (x : tensor R) (h d_k : nat) : result (list (tensor R)) :=
  if Nat.eqb (rows x * cols x) (rows x * (h * d_k))
  then Ok (List.map (head x d_k) (seq 0 h))
  else Raise RuntimeError.

(** [x.transpose(1, 2).contiguous().view(x.shape[0], -1, h * d_k)]: the
    size [-1] cannot be inferred when [h * d_k] is 0. *)
Definition merge_heads (xs : list (tensor R)) (h d_k : nat) : result (tensor R) :=
  if Nat.eqb (h * d_k) 0
  then Raise RuntimeError
  else Ok (mk (match xs with x :: _ => rows x | [] => O end) (h * d_k)
              (fun i j => get (nth (j / d_k) xs (mk 0 0 (fun _ _ => 0)))
                              i (j mod d_k))).

(** The output, and the weights kept in [self.attention_scores]. *)
Definition forward (self : t) (q k v : tensor R) (mask : option (tensor Z))
  : result (tensor R * list (tensor R)) :=
  query <- LinearLayer.forward (w_q self) q ;;
  key <- LinearLayer.forward (w_k self) k ;;
  value <- LinearLayer.forward (w_v self) v ;;
  query <- split_heads query (h self) (d_k self) ;;
  key <- split_heads key (h self) (d_k self) ;;
  value <- split_heads value (h self) (d_k self) ;;
  heads <- mapM (fun a =>
                   Attention.attention
                     (nth a query (mk 0 0 (fun _ _ => 0)))
                     (nth a key (mk 0 0 (fun _ _ => 0)))
                     (nth a value (mk 0 0 (fun _ _ => 0)))
                     mask (Some (dropout self)))
                (seq 0 (h self)) ;;
  x <- merge_heads (List.map fst heads) (h self) (d_k self) ;;
  out <- LinearLayer.forward (w_o self) x ;;
  Ok (out, List.map snd heads).

(** A block as [__init__] builds it: four linear maps of the model
    dimension [h * d_k] to itself, and at least one head of at least one
    feature. *)
Definition built (self : t) : Prop :=
  (0 < h self)%nat /\ (0 < d_k self)%nat
  /\ Forall (fun l => LinearLayer.in_features l = (h self * d_k self)%nat
                      /\ LinearLayer.out_features l = (h self * d_k self)%nat)
            [w_q self; w_k self; w_v self; w_o self].

(** A mask that broadcasts to [queries] rows and [keys] columns. *)
Definition mask_fits (mask : option (tensor Z)) (queries keys : nat) : Prop :=
  match mask with
  | Some m => broadcastable (rows m) queries && broadcastable (cols m) keys
              = true
  | None => True
  end.

End MultiHeadAttention.

(** [EncoderBlock] and [Encoder] *)

Module EncoderBlock.

Record t : Type := {
  self_attention_block : MultiHeadAttention.t;
  feed_forward_block : FeedForwardBlock.t;
  residual_0 : ResidualConnection.t;      (* [residual_connections[0]] *)
  residual_1 : ResidualConnection.t       (* [residual_connections[1]] *)
}.

Definition forward (self : t) (x : tensor R) (src_mask : option (tensor Z))
  : result (tensor R) :=
  x <- ResidualConnection.forward (residual_0 self) x
         (fun x =>
            r <- MultiHeadAttention.forward (self_attention_block self)
                   x x x src_mask ;;
            Ok (fst r)) ;;
  ResidualConnection.forward (residual_1 self) x
    (FeedForwardBlock.forward (feed_forward_block self)).

(** A block of model dimension [d]: its attention is as [__init__] builds
    it for [d], and its feed-forward block maps [d] features to an inner
    width and back. *)
Definition built (self : t) (d : nat) : Prop :=
  MultiHeadAttention.built (self_attention_block self)
  /\ (MultiHeadAttention.h (self_attention_block self)
      * MultiHeadAttention.d_k (self_attention_block self) = d)%nat
  /\ LinearLayer.in_features (FeedForwardBlock.linear_1 (feed_forward_block self))
     = d
  /\ LinearLayer.in_features (FeedForwardBlock.linear_2 (feed_forward_block self))
     = LinearLayer.out_features
         (FeedForwardBlock.linear_1 (feed_forward_block self))
  /\ LinearLayer.out_features
       (FeedForwardBlock.linear_2 (feed_forward_block self)) = d.

(** Every dropout of the block is in evaluation mode. *)
Definition eval_mode (self : t) : Prop :=
  Layers.identity (MultiHeadAttention.dropout (self_attention_block self))
  /\ Layers.identity (FeedForwardBlock.dropout (feed_forward_block self))
  /\ Layers.identity (ResidualConnection.dropout (residual_0 self))
  /\ Layers.identity (ResidualConnection.dropout (residual_1 self)).

End EncoderBlock.

Module Encoder.

Record t : Type := {
  layers : list EncoderBlock.t;
  norm : LayerNormalization.t
}.

Fixpoint apply_layers (layers : list EncoderBlock.t) (x : tensor R)
    (mask : option (tensor Z)) : result (tensor R) :=
  match layers with
  | [] => Ok x
  | layer :: layers' =>
      x <- EncoderBlock.forward layer x mask ;;
      apply_layers layers' x mask
  end.

Definition forward (self : t) (x : tensor R) (mask : option (tensor Z))
  : result (tensor R) :=
  x <- apply_layers (layers self) x mask ;;
  Ok (LayerNormalization.forward (norm self) x).

End Encoder.

(** [DecoderBlock] and [Decoder] *)

Module DecoderBlock.

Record t : Type := {
  self_attention_block : MultiHeadAttention.t;
  cross_attention_block : MultiHeadAttention.t;
  feed_forward_block : FeedForwardBlock.t;
  residual_0 : ResidualConnection.t;
  residual_1 : ResidualConnection.t;
  residual_2 : ResidualConnection.t
}.

Definition forward (self : t) (x encoder_output : tensor R)
    (src_mask tgt_mask : option (tensor Z)) : result (tensor R) :=
  x <- ResidualConnection.forward (residual_0 self) x
         (fun x =>
            r <- MultiHeadAttention.forward (self_attention_block self)
                   x x x tgt_mask ;;
            Ok (fst r)) ;;
  x <- ResidualConnection.forward (residual_1 self) x
         (fun x =>
            r <- MultiHeadAttention.forward (cross_attention_block self)
                   x encoder_output encoder_output src_mask ;;
            Ok (fst r)) ;;
  ResidualConnection.forward (residual_2 self) x
    (FeedForwardBlock.forward (feed_forward_block self)).

Definition built (self : t) (d : nat) : Prop :=
  MultiHeadAttention.built (self_attention_block self)
  /\ (MultiHeadAttention.h (self_attention_block self)
      * MultiHeadAttention.d_k (self_attention_block self) = d)%nat
  /\ MultiHeadAttention.built (cross_attention_block self)
  /\ (MultiHeadAttention.h (cross_attention_block self)
      * MultiHeadAttention.d_k (cross_attention_block self) = d)%nat
  /\ LinearLayer.in_features (FeedForwardBlock.linear_1 (feed_forward_block self))
     = d
  /\ LinearLayer.in_features (FeedForwardBlock.linear_2 (feed_forward_block self))
     = LinearLayer.out_features
         (FeedForwardBlock.linear_1 (feed_forward_block self))
  /\ LinearLayer.out_features
       (FeedForwardBlock.linear_2 (feed_forward_block self)) = d.

Definition eval_mode (self : t) : Prop :=
  Layers.identity (MultiHeadAttention.dropout (self_attention_block self))
  /\ Layers.identity (MultiHeadAttention.dropout (cross_attention_block self))
  /\ Layers.identity (FeedForwardBlock.dropout (feed_forward_block self))
  /\ Layers.identity (ResidualConnection.dropout (residual_0 self))
  /\ Layers.identity (ResidualConnection.dropout (residual_1 self))
  /\ Layers.identity (ResidualConnection.dropout (residual_2 self)).

End DecoderBlock.

Module Decoder.

Record t : Type := {
  layers : list DecoderBlock.t;
  norm : LayerNormalization.t
}.

Fixpoint apply_layers (layers : list DecoderBlock.t) (x encoder_output : tensor R)
    (src_mask tgt_mask : option (tensor Z)) : result (tensor R) :=
  match layers with
  | [] => Ok x
  | layer :: layers' =>
      x <- DecoderBlock.forward layer x encoder_output src_mask tgt_mask ;;
      apply_layers layers' x encoder_output src_mask tgt_mask
  end.

Definition forward (self : t) (x encoder_output : tensor R)
    (src_mask tgt_mask : option (tensor Z)) : result (tensor R) :=
  x <- apply_layers (layers self) x encoder_output src_mask tgt_mask ;;
  Ok (LayerNormalization.forward (norm self) x).

End Decoder.

(** [Transformer]: [encode], [decode] and [project] *)

Module TransformerModel.

Record t : Type := {
  encoder : Encoder.t;
  decoder : Decoder.t;
  src_embed : InputEmbeddings.t;
  tgt_embed : InputEmbeddings.t;
  src_pos : PositionalEncodingLayer.t;
  tgt_pos : PositionalEncodingLayer.t;
  projection_layer : ProjectionLayer.t
}.

Definition encode (self : t) (src : list Z) (src_mask : option (tensor Z))
  : result (tensor R) :=
  src <- InputEmbeddings.forward (src_embed self) src ;;
  src <- PositionalEncodingLayer.forward (src_pos self) src ;;
  Encoder.forward (encoder self) src src_mask.

Definition decode (self : t) (encoder_output : tensor R)
    (src_mask : option (tensor Z)) (tgt : list Z)
    (tgt_mask : option (tensor Z)) : result (tensor R) :=
  tgt <- InputEmbeddings.forward (tgt_embed self) tgt ;;
  tgt <- PositionalEncodingLayer.forward (tgt_pos self) tgt ;;
  Decoder.forward (decoder self) tgt encoder_output src_mask tgt_mask.

Definition project (self : t) (x : tensor R) : result (tensor R) :=
  ProjectionLayer.forward (projection_layer self) x.

(** A transformer of model dimension [d] for sequences of at most
    [src_len] and [tgt_len] tokens, as [build_transformer] assembles it,
    every dropout in evaluation mode. *)
Definition built (self : t) (d src_len tgt_len : nat) : Prop :=
  Forall (fun b => EncoderBlock.built b d /\ EncoderBlock.eval_mode b)
         (Encoder.layers (encoder self))
  /\ Forall (fun b => DecoderBlock.built b d /\ DecoderBlock.eval_mode b)
            (Decoder.layers (decoder self))
  /\ InputEmbeddings.d_model (src_embed self) = d
  /\ InputEmbeddings.d_model (tgt_embed self) = d
  /\ PositionalEncoding.init d src_len
     = Ok (PositionalEncodingLayer.pe (src_pos self))
  /\ PositionalEncoding.init d tgt_len
     = Ok (PositionalEncodingLayer.pe (tgt_pos self))
  /\ Layers.identity (PositionalEncodingLayer.dropout (src_pos self))
  /\ Layers.identity (PositionalEncodingLayer.dropout (tgt_pos self))
  /\ LinearLayer.in_features
       (ProjectionLayer.proj (projection_layer self)) = d.

(** The normalization layers of a transformer: those of the residual
    connections of every block, and the final ones of the encoder and of
    the decoder. *)
Definition norms (self : t) : list LayerNormalization.t :=
  flat_map (fun b => [ResidualConnection.norm (EncoderBlock.residual_0 b);
                      ResidualConnection.norm (EncoderBlock.residual_1 b)])
           (Encoder.layers (encoder self))
  ++ [Encoder.norm (encoder self)]
  ++ flat_map (fun b => [ResidualConnection.norm (DecoderBlock.residual_0 b);
                         ResidualConnection.norm (DecoderBlock.residual_1 b);
                         ResidualConnection.norm (DecoderBlock.residual_2 b)])
              (Decoder.layers (decoder self))
  ++ [Decoder.norm (decoder self)].

End TransformerModel.

(** ** Validation: [run_validation]

    The messages handed to [print_msg] are the result; the arguments
    [device], [global_state] and [writer] play no part in them. *)

Module Validation.

Import Greedy.

(** A batch as the data loader collates it: one item per example. *)
Definition batch : Type := list Dataset.item.

(** [s * n] on strings. *)
Fixpoint str_mul (s : string) (n : nat) : string :=
  match n with
  | O => EmptyString
  | S n' => String.append s (str_mul s n')
  end.

Definition console_width : nat := 80.

Section Run.

Variables Enc Hidden : Type.

Fixpoint validation_loop (fuel : nat) (model : Transformer Enc Hidden)
    (validation_ds : list batch) (tokenizer_src tokenizer_tgt : Tokenizer)
    (decode_ids : list Z -> string)        (* [tokenizer_tgt.decode] *)
    (max_len num_examples : Z) (count : Z) (printed : list string)
  : outcome (list string) :=
  match validation_ds with
  | [] => Returned printed
  | batch :: rest =>
      let count := (count + 1)%Z in
      match batch with
      | [it] =>
          match fst (run (greedy_decode fuel model
                            (Dataset.encoder_input it)
                            (Dataset.encoder_mask it)
                            tokenizer_src tokenizer_tgt max_len)) with
          | Returned model_out =>
              let source_text := Dataset.src_text it in
              let target_text := Dataset.tgt_text it in
              let model_out_text := decode_ids model_out in
              let printed :=
                printed
                  ++ [str_mul "-" console_width;
                      String.append "源語言: " source_text;
                      String.append "目標語言: " target_text;
                      String.append "模型預測: " model_out_text] in
              if (count =? num_examples)%Z
              then Returned printed
              else validation_loop fuel model rest tokenizer_src
                                   tokenizer_tgt decode_ids max_len
                                   num_examples count printed
          | Raised e => Raised e
          | OutOfFuel => OutOfFuel
          end
      | _ => Raised AssertionError
      end
  end.

Definition run_validation (fuel : nat) (model : Transformer Enc Hidden)
    (validation_ds : list batch) (tokenizer_src tokenizer_tgt : Tokenizer)
    (decode_ids : list Z -> string) (max_len num_examples : Z)
  : outcome (list string) :=
  validation_loop fuel model validation_ds tokenizer_src tokenizer_tgt
                  decode_ids max_len num_examples 0 [].

End Run.

Arguments validation_loop {Enc Hidden}.
Arguments run_validation {Enc Hidden}.

(** Number of examples that a run over [n] batches handles when asked for
    [num_examples]. *)
Definition handled (num_examples : Z) (n : nat) : nat :=
  if ((1 <=? num_examples) && (num_examples <=? Z.of_nat n))%Z
  then Z.to_nat num_examples
  else n.

End Validation.

(** ** Small concrete layers *)

Module LayerExamples.

Local Open Scope R_scope.

(** A linear layer from one feature to two, with weights 1 and 2. *)
Definition one_to_two : LinearLayer.t :=
  {| LinearLayer.in_features := 1;
     LinearLayer.out_features := 2;
     LinearLayer.weight := fun j _ => match j with O => 1 | _ => 2 end;
     LinearLayer.bias := fun _ => 0 |}.

(** A linear layer from two features to one, summing them. *)
Definition two_to_one : LinearLayer.t :=
  {| LinearLayer.in_features := 2;
     LinearLayer.out_features := 1;
     LinearLayer.weight := fun _ _ => 1;
     LinearLayer.bias := fun _ => 0 |}.

(** A projection onto a vocabulary of two words. *)
Definition two_words : ProjectionLayer.t :=
  {| ProjectionLayer.proj := one_to_two |}.

(** A feed-forward block of model width 1 and inner width 2, its dropout
    in evaluation mode. *)
Definition small_ffn : FeedForwardBlock.t :=
  {| FeedForwardBlock.linear_1 := one_to_two;
     FeedForwardBlock.dropout := fun t => t;
     FeedForwardBlock.linear_2 := two_to_one |}.

(** An embedding of four words into two features. *)
Definition four_words : InputEmbeddings.t :=
  {| InputEmbeddings.d_model := 2;
     InputEmbeddings.vocab_size := 4;
     InputEmbeddings.embedding := fun i j => INR i + INR j |}.

(** The identity map on two features. *)
Definition identity_2 : LinearLayer.t :=
  {| LinearLayer.in_features := 2;
     LinearLayer.out_features := 2;
     LinearLayer.weight := fun j k => if Nat.eqb j k then 1 else 0;
     LinearLayer.bias := fun _ => 0 |}.

(** A block of two heads of one feature each, its dropout in evaluation
    mode. *)
Definition two_heads : MultiHeadAttention.t :=
  {| MultiHeadAttention.h := 2;
     MultiHeadAttention.d_k := 1;
     MultiHeadAttention.w_q := identity_2;
     MultiHeadAttention.w_k := identity_2;
     MultiHeadAttention.w_v := identity_2;
     MultiHeadAttention.w_o := identity_2;
     MultiHeadAttention.dropout := fun t => t |}.

(** A residual connection around the default normalization, its dropout in
    evaluation mode. *)
Definition plain_residual : ResidualConnection.t :=
  {| ResidualConnection.dropout := fun t => t;
     ResidualConnection.norm := LayerNormalization.init |}.

(** A feed-forward block on two features. *)
Definition ffn_2 : FeedForwardBlock.t :=
  {| FeedForwardBlock.linear_1 := identity_2;
     FeedForwardBlock.dropout := fun t => t;
     FeedForwardBlock.linear_2 := identity_2 |}.

Definition toy_encoder_block : EncoderBlock.t :=
  {| EncoderBlock.self_attention_block := two_heads;
     EncoderBlock.feed_forward_block := ffn_2;
     EncoderBlock.residual_0 := plain_residual;
     EncoderBlock.residual_1 := plain_residual |}.

Definition toy_encoder : Encoder.t :=
  {| Encoder.layers := [toy_encoder_block];
     Encoder.norm := LayerNormalization.init |}.

Definition toy_decoder_block : DecoderBlock.t :=
  {| DecoderBlock.self_attention_block := two_heads;
     DecoderBlock.cross_attention_block := two_heads;
     DecoderBlock.feed_forward_block := ffn_2;
     DecoderBlock.residual_0 := plain_residual;
     DecoderBlock.residual_1 := plain_residual;
     DecoderBlock.residual_2 := plain_residual |}.

Definition toy_decoder : Decoder.t :=
  {| Decoder.layers := [toy_decoder_block];
     Decoder.norm := LayerNormalization.init |}.

(** A transformer of two features over vocabularies of four and two
    words, with the positional table [pe] on both sides. *)
Definition toy_transformer (pe : tensor R) : TransformerModel.t :=
  {| TransformerModel.encoder := toy_encoder;
     TransformerModel.decoder := toy_decoder;
     TransformerModel.src_embed := four_words;
     TransformerModel.tgt_embed := four_words;
     TransformerModel.src_pos :=
       {| PositionalEncodingLayer.pe := pe;
          PositionalEncodingLayer.dropout := fun t => t |};
     TransformerModel.tgt_pos :=
       {| PositionalEncodingLayer.pe := pe;
          PositionalEncodingLayer.dropout := fun t => t |};
     TransformerModel.projection_layer :=
       {| ProjectionLayer.proj := identity_2 |} |}.

End LayerExamples.

(** * Properties *)

(** ** Finite sums *)

Section Sums.

Local Open Scope R_scope.

Lemma sum_n_ext (f g : nat -> R) (n : nat) :
  (forall k, (k < n)%nat -> f k = g k) -> sum_n f n = sum_n g n.
Proof.
  induction n as [|n IH]; intros H; simpl.
  - reflexivity.
  - rewrite IH by (intros k Hk; apply H; lia).
    rewrite (H n) by lia. reflexivity.
Qed.

Lemma sum_n_div (f : nat -> R) (c : R) (n : nat) :
  sum_n (fun k => f k / c) n = sum_n f n / c.
Proof.
  induction n as [|n IH]; simpl.
  - unfold Rdiv. now rewrite Rmult_0_l.
  - rewrite IH. unfold Rdiv. ring.
Qed.

Lemma sum_n_nonneg (f : nat -> R) (n : nat) :
  (forall k, (k < n)%nat -> 0 <= f k) -> 0 <= sum_n f n.
Proof.
  induction n as [|n IH]; intros H; simpl.
  - lra.
  - assert (0 <= sum_n f n) by (apply IH; intros; apply H; lia).
    assert (0 <= f n) by (apply H; lia). lra.
Qed.

Lemma sum_n_term_le (f : nat -> R) (n j : nat) :
  (forall k, (k < n)%nat -> 0 <= f k) -> (j < n)%nat -> f j <= sum_n f n.
Proof.
  induction n as [|n IH]; intros H Hj; [lia|]. simpl.
  assert (Hn : 0 <= f n) by (apply H; lia).
  assert (Hs : 0 <= sum_n f n) by (apply sum_n_nonneg; intros; apply H; lia).
  destruct (Nat.eq_dec j n) as [->|Hne].
  - lra.
  - assert (f j <= sum_n f n) by (apply IH; [intros; apply H; lia | lia]).
    lra.
Qed.

Lemma sum_n_pos (f : nat -> R) (n : nat) :
  (0 < n)%nat -> (forall k, (k < n)%nat -> 0 < f k) -> 0 < sum_n f n.
Proof.
  intros Hn H.
  assert (H0 : f O <= sum_n f n).
  { apply sum_n_term_le; [|exact Hn]. intros k Hk. left. now apply H. }
  specialize (H O Hn). lra.
Qed.

Lemma sum_n_const (c : R) (n : nat) :
  sum_n (fun _ => c) n = INR n * c.
Proof.
  induction n as [|n IH].
  - simpl. ring.
  - rewrite S_INR. simpl. rewrite IH. ring.
Qed.

End Sums.

(** ** Softmax over the last axis *)

Section Softmax.

Local Open Scope R_scope.

Lemma softmax_denominator_pos (t : tensor R) (i : nat) :
  (0 < cols t)%nat -> 0 < sum_n (fun k => exp (get t i k)) (cols t).
Proof.
  intros Hc. apply sum_n_pos; [exact Hc|]. intros k _. apply exp_pos.
Qed.

Lemma softmax_row_sum (t : tensor R) (i : nat) :
  (0 < cols t)%nat -> row_sum (Tensor.softmax t) i = 1.
Proof.
  intros Hc. unfold row_sum, Tensor.softmax. simpl.
  rewrite sum_n_div.
  pose proof (softmax_denominator_pos t i Hc) as Hpos.
  field. lra.
Qed.

Lemma softmax_pos (t : tensor R) (i j : nat) :
  (j < cols t)%nat -> 0 < get (Tensor.softmax t) i j.
Proof.
  intros Hj. simpl.
  apply Rdiv_lt_0_compat; [apply exp_pos|].
  apply softmax_denominator_pos. lia.
Qed.

(** A weight is at most the exponential of the gap to any other score of
    its row. *)
Lemma softmax_le_gap (t : tensor R) (i j j' : nat) :
  (j < cols t)%nat -> (j' < cols t)%nat ->
  get (Tensor.softmax t) i j <= exp (get t i j - get t i j').
Proof.
  intros Hj Hj'. simpl.
  set (s := sum_n (fun k => exp (get t i k)) (cols t)).
  assert (Hs : 0 < s) by (apply softmax_denominator_pos; lia).
  assert (Hle : exp (get t i j') <= s).
  { unfold s. apply (sum_n_term_le (fun k => exp (get t i k))); [|exact Hj'].
    intros k _. left. apply exp_pos. }
  unfold Rminus. rewrite exp_plus, exp_Ropp.
  pose proof (exp_pos (get t i j)) as Hej.
  pose proof (exp_pos (get t i j')) as Hej'.
  unfold Rdiv. apply Rmult_le_compat_l; [lra|].
  apply Rinv_le_contravar; assumption.
Qed.

(** A row of equal scores gets equal weights. *)
Lemma softmax_const_row (t : tensor R) (i j : nat) (c : R) :
  (forall k, (k < cols t)%nat -> get t i k = c) ->
  (j < cols t)%nat ->
  get (Tensor.softmax t) i j = / INR (cols t).
Proof.
  intros Hrow Hj. simpl.
  rewrite (sum_n_ext _ (fun _ => exp c)) by (intros k Hk; now rewrite Hrow).
  rewrite sum_n_const, (Hrow j Hj).
  pose proof (exp_pos c).
  assert (0 < INR (cols t)) by (apply lt_0_INR; lia).
  field. split; lra.
Qed.

Lemma exp_below_tol (x : R) : x <= - 1000000 -> exp x <= Attention.tol.
Proof.
  intros Hx. unfold Attention.tol.
  rewrite <- (Ropp_involutive x), exp_Ropp.
  apply Rinv_le_contravar; [lra|].
  pose proof (exp_ineq1_le (- x)). lra.
Qed.

End Softmax.

(** ** Scaled dot-product attention *)

Section AttentionFacts.

Import Attention.
Local Open Scope R_scope.

Lemma masked_scores_inv (query key : tensor R) (mask : tensor Z) (s : tensor R) :
  masked_scores query key (Some mask) = Ok s ->
  rows s = rows query /\ cols s = rows key
  /\ forall i j, get s i j =
       if (bget mask i j =? 0)%Z then neg_1e9
       else sum_n (fun k => get query i k * get key j k) (cols query)
            / sqrt (INR (cols query)).
Proof.
  unfold masked_scores, matmul, masked_fill.
  destruct (Nat.eqb (cols query) (rows (transpose key))); simpl; [|discriminate].
  destruct (broadcastable (rows mask) (rows query)
            && broadcastable (cols mask) (rows key))%bool; [|discriminate].
  intros H. injection H as <-. simpl. auto.
Qed.

Lemma attention_inv (query key value : tensor R) (mask : option (tensor Z))
    (dropout : option (tensor R -> tensor R)) (out w : tensor R) :
  attention query key value mask dropout = Ok (out, w) ->
  exists s, masked_scores query key mask = Ok s
    /\ w = match dropout with
           | Some f => f (Tensor.softmax s)
           | None => Tensor.softmax s
           end.
Proof.
  unfold attention.
  destruct (masked_scores query key mask) as [s|e]; simpl; [|discriminate].
  intros H. exists s. split; [reflexivity|].
  destruct (matmul _ value); simpl in H; [|discriminate].
  now injection H as _ <-.
Qed.

Lemma inactive_dropout (dropout : option (tensor R -> tensor R)) (t : tensor R) :
  inactive dropout ->
  match dropout with Some f => f t | None => t end = t.
Proof. destruct dropout; simpl; auto. Qed.

Lemma attention_returns (query key value : tensor R) (mask : tensor Z)
    (dropout : option (tensor R -> tensor R)) :
  inactive dropout ->
  shapes_ok query key value mask = true ->
  exists out w, attention query key value (Some mask) dropout = Ok (out, w).
Proof.
  intros Hd Hs. unfold shapes_ok in Hs.
  apply andb_prop in Hs as [Hs Hkv]. apply andb_prop in Hs as [Hs Hmc].
  apply andb_prop in Hs as [Hqk Hmr].
  unfold attention, masked_scores, matmul at 1, masked_fill. simpl.
  rewrite Hqk. simpl. rewrite Hmr, Hmc. simpl.
  rewrite inactive_dropout by exact Hd.
  unfold matmul. simpl. rewrite Hkv. simpl. eauto.
Qed.

(** With an absent or inactive dropout the returned weights are the softmax
    of the filled scores. *)
Lemma attention_softmax_of_filled (query key value : tensor R) (mask : tensor Z)
    (dropout : option (tensor R -> tensor R)) (out w : tensor R) :
  inactive dropout ->
  attention query key value (Some mask) dropout = Ok (out, w) ->
  exists s,
    masked_scores query key (Some mask) = Ok s
    /\ w = Tensor.softmax s
    /\ rows s = rows query /\ cols s = rows key
    /\ (forall i j, hidden mask i j -> get s i j = neg_1e9).
Proof.
  intros Hd Hatt.
  destruct (attention_inv _ _ _ _ _ _ _ Hatt) as (s & Hs & Hw).
  rewrite inactive_dropout in Hw by exact Hd.
  destruct (masked_scores_inv _ _ _ _ Hs) as (Hr & Hc & Hget).
  exists s. repeat split; auto.
  intros i j Hh. rewrite Hget. unfold hidden in Hh. now rewrite Hh.
Qed.

(** C1, as amended.  With a mask given, a query of at least one feature
    and a dropout that is absent or inactive, the weights returned by
    [attention] are the softmax of scores in which every hidden position
    holds -1e9; every row over at least one key sums to 1; the weight of a
    hidden position is at least 0 and at most [exp (-1e9 - s)] for each
    score [s] of a visible position of its row, hence approximately 0 when
    such a score is at least -999000000. *)
Theorem attention_hidden_weights (query key value : tensor R) (mask : tensor Z)
    (dropout : option (tensor R -> tensor R)) (out w : tensor R) :
  inactive dropout ->
  (0 < cols query)%nat ->
  attention query key value (Some mask) dropout = Ok (out, w) ->
  exists s,
    masked_scores query key (Some mask) = Ok s
    /\ w = Tensor.softmax s
    /\ rows w = rows query /\ cols w = rows key
    /\ (forall i j, hidden mask i j -> get s i j = neg_1e9)
    /\ (forall i, (0 < rows key)%nat -> row_sum w i = 1)
    /\ (forall i j j', (j < rows key)%nat -> (j' < rows key)%nat ->
          hidden mask i j -> ~ hidden mask i j' ->
          0 <= get w i j <= exp (neg_1e9 - get s i j')
          /\ (- 999000000 <= get s i j' -> approx_zero (get w i j))).
Proof.
  intros Hd Hdk Hatt.
  destruct (attention_softmax_of_filled _ _ _ _ _ _ _ Hd Hatt)
    as (s & Hs & Hw & Hr & Hc & Hfill).
  subst w.
  exists s. repeat split; auto.
  - intros i Hk. apply softmax_row_sum. lia.
  - left. apply softmax_pos. lia.
  - rewrite <- (Hfill i j) by assumption. apply softmax_le_gap; lia.
  - intros Hvis. unfold approx_zero.
    assert (Hpos : 0 < get (Tensor.softmax s) i j) by (apply softmax_pos; lia).
    rewrite Rabs_right by lra.
    apply Rle_trans with (exp (get s i j - get s i j')).
    + apply softmax_le_gap; lia.
    + apply exp_below_tol. rewrite (Hfill i j) by assumption.
      unfold neg_1e9. lra.
Qed.

(** The statement of [attention_hidden_weights] holds at a concrete input:
    one query, two keys, key 0 hidden and key 1 visible. *)
Lemma attention_hidden_weights_witness :
  exists out w,
    attention (Examples.full 1 1 0) (Examples.full 2 1 0) (Examples.full 2 1 0)
              (Some Examples.mask_hide_first) None = Ok (out, w)
    /\ row_sum w 0 = 1
    /\ approx_zero (get w 0 0).
Proof.
  eexists. eexists. split; [reflexivity|].
  edestruct (attention_hidden_weights
               (Examples.full 1 1 0) (Examples.full 2 1 0) (Examples.full 2 1 0)
               Examples.mask_hide_first None)
    as (s & Hs & Hw & _ & _ & _ & Hsum & Hsmall);
    [exact I | simpl; lia | reflexivity |].
  split.
  - apply Hsum. simpl. lia.
  - destruct (Hsmall O O 1%nat) as [_ Hz];
      [simpl; lia | simpl; lia | reflexivity | discriminate |].
    apply Hz. injection Hs as <-. simpl.
    unfold Rdiv. rewrite Rmult_0_l, Rplus_0_l, Rmult_0_l. lra.
Defined.

(** C1, as stated, fails: with a single key that the mask hides, the hidden
    position receives the whole weight 1; and with a dropout that is active
    the rows of the returned weights need not sum to 1. *)
Lemma attention_hidden_weight_one :
  (exists out w,
     attention (Examples.full 1 1 0) (Examples.full 1 1 0) (Examples.full 1 1 0)
               (Some (Examples.full 1 1 0%Z)) None = Ok (out, w)
     /\ hidden (Examples.full 1 1 0%Z) 0 0
     /\ get w 0 0 = 1
     /\ ~ approx_zero (get w 0 0))
  /\ (exists out w,
       attention (Examples.full 1 1 0) (Examples.full 1 1 0)
                 (Examples.full 1 1 0) (Some (Examples.full 1 1 1%Z))
                 (Some Examples.drop_all) = Ok (out, w)
       /\ row_sum w 0 = 0
       /\ row_sum w 0 <> 1).
Proof.
  split.
  - eexists. eexists. split; [reflexivity|].
    split; [reflexivity|].
    assert (H1 : exp neg_1e9 / (0 + exp neg_1e9) = 1).
    { pose proof (exp_pos neg_1e9). field. lra. }
    simpl. split; [exact H1|].
    unfold approx_zero, tol. rewrite H1, Rabs_R1. lra.
  - eexists. eexists. split; [reflexivity|].
    unfold row_sum. simpl. split; lra.
Qed.

End AttentionFacts.

Section AllHiddenRow.

Import Attention.
Local Open Scope R_scope.

(** C4, as amended.  For inputs of compatible shapes and a dropout that is
    absent or inactive, [attention] returns; in a query row all of whose key
    positions are hidden, the softmax is taken over the filled scores, whose
    exponentials have a positive sum, and every one of the [n] weights of
    the row equals [1 / n], so that the row sums to 1. *)
Theorem attention_all_hidden_row (query key value : tensor R) (mask : tensor Z)
    (dropout : option (tensor R -> tensor R)) :
  inactive dropout ->
  shapes_ok query key value mask = true ->
  exists out w s,
    attention query key value (Some mask) dropout = Ok (out, w)
    /\ masked_scores query key (Some mask) = Ok s
    /\ w = Tensor.softmax s
    /\ forall i, (forall j, (j < rows key)%nat -> hidden mask i j) ->
         (forall j, (j < rows key)%nat ->
            get s i j = neg_1e9 /\ get w i j = / INR (rows key))
         /\ ((0 < rows key)%nat ->
             0 < sum_n (fun j => exp (get s i j)) (rows key)
             /\ row_sum w i = 1).
Proof.
  intros Hd Hshape.
  destruct (attention_returns _ _ _ _ _ Hd Hshape) as (out & w & Hatt).
  destruct (attention_softmax_of_filled _ _ _ _ _ _ _ Hd Hatt)
    as (s & Hs & Hw & _ & Hc & Hfill).
  exists out, w, s. repeat split; auto.
  - subst w. rewrite <- Hc.
    apply softmax_const_row with (c := neg_1e9).
    + intros k Hk. apply Hfill, H. lia.
    + lia.
  - rewrite <- Hc. apply softmax_denominator_pos. lia.
  - subst w. apply softmax_row_sum. lia.
Qed.

(** The statement of [attention_all_hidden_row] holds at a concrete input:
    one query and two keys, both hidden. *)
Lemma attention_all_hidden_row_witness :
  exists out w,
    attention (Examples.full 1 1 0) (Examples.full 2 1 0) (Examples.full 2 1 0)
              (Some (Examples.full 1 2 0%Z)) None = Ok (out, w)
    /\ get w 0 0 = / 2 /\ get w 0 1 = / 2.
Proof.
  destruct (attention_all_hidden_row
              (Examples.full 1 1 0) (Examples.full 2 1 0) (Examples.full 2 1 0)
              (Examples.full 1 2 0%Z) None)
    as (out & w & s & Hatt & _ & _ & Hrow); [exact I | reflexivity |].
  exists out, w. split; [exact Hatt|].
  destruct (Hrow O) as [Hw _]; [reflexivity|].
  split.
  - destruct (Hw O) as [_ H0]; [simpl; lia|]. exact H0.
  - destruct (Hw 1%nat) as [_ H1]; [simpl; lia|]. exact H1.
Defined.

(** C4, as stated, fails: in a row of two keys that are both hidden, each
    weight is 1/2, which is not near zero. *)
Lemma attention_all_hidden_row_half :
  exists out w,
    attention (Examples.full 1 1 0) (Examples.full 2 1 0) (Examples.full 2 1 0)
              (Some (Examples.full 1 2 0%Z)) None = Ok (out, w)
    /\ (forall j, (j < 2)%nat -> hidden (Examples.full 1 2 0%Z) 0 j)
    /\ get w 0 0 = / 2
    /\ ~ approx_zero (get w 0 0).
Proof.
  eexists. eexists. split; [reflexivity|].
  split; [intros j _; reflexivity|].
  assert (H2 : exp neg_1e9 / (0 + exp neg_1e9 + exp neg_1e9) = / 2).
  { pose proof (exp_pos neg_1e9). field. lra. }
  simpl. split; [exact H2|].
  unfold approx_zero, tol. rewrite H2, Rabs_right by lra. lra.
Qed.

End AllHiddenRow.

(** ** The causal mask *)

Section CausalMask.

Import Attention.
Local Open Scope R_scope.

Lemma bidx_in_range (m i : nat) : (i < m)%nat -> bidx m i = i.
Proof.
  intros Hi. unfold bidx. destruct (Nat.eqb_spec m 1); lia.
Qed.

Lemma hidden_casual_mask (L i j : nat) :
  (i < L)%nat -> (j < L)%nat ->
  (hidden (to_int (casual_mask L)) i j <-> (i < j)%nat).
Proof.
  intros Hi Hj. unfold hidden, bget. simpl.
  rewrite !bidx_in_range by assumption.
  destruct (Z.leb_spec 1 (Z.of_nat j - Z.of_nat i)); simpl;
    split; intros; try lia; try discriminate; reflexivity.
Qed.

(** C2, as amended.  The causal mask for length [L] has shape [(L, L)];
    its entry [(i, j)] allows attention exactly when [j <= i]; the excluded
    entries are those of the strictly upper triangle, and they are the
    positions hidden from query [i] when the mask is handed to attention.
    There the score of a later position [j > i] is replaced by -1e9: with
    [L] queries and keys of at least one feature and a dropout that is
    absent or inactive, the weight of query [i] on [j] is at least 0 and at
    most [exp (-1e9 - s)] for the score [s] of each position up to [i],
    hence approximately 0 when such a score is at least -999000000. *)
Theorem casual_mask_lower_triangle (L i j : nat) (query key value : tensor R)
    (dropout : option (tensor R -> tensor R)) (out w : tensor R) :
  (i < L)%nat -> (j < L)%nat ->
  (rows (casual_mask L) = L /\ cols (casual_mask L) = L
   /\ (get (casual_mask L) i j = true <-> (j <= i)%nat)
   /\ (get (triu (ones L L) 1) i j = 1%Z <-> (i < j)%nat)
   /\ (get (triu (ones L L) 1) i j = 0%Z <-> (j <= i)%nat)
   /\ (hidden (to_int (casual_mask L)) i j <-> (i < j)%nat))
  /\ (inactive dropout ->
      (0 < cols query)%nat -> rows query = L -> rows key = L ->
      attention query key value (Some (to_int (casual_mask L))) dropout
      = Ok (out, w) ->
      exists s,
        masked_scores query key (Some (to_int (casual_mask L))) = Ok s
        /\ w = Tensor.softmax s
        /\ ((i < j)%nat ->
            get s i j = neg_1e9
            /\ forall j', (j' <= i)%nat ->
                 0 <= get w i j <= exp (neg_1e9 - get s i j')
                 /\ (- 999000000 <= get s i j' -> approx_zero (get w i j)))).
Proof.
  intros Hi Hj. split.
  - split; [reflexivity|]. split; [reflexivity|].
    split; [|split; [|split; [|now apply hidden_casual_mask]]];
      simpl; destruct (Z.leb_spec 1 (Z.of_nat j - Z.of_nat i)) as [H|H]; simpl;
      split; intros; try lia; try discriminate; try reflexivity.
  - intros Hd Hdk Hq Hk Hatt.
    destruct (attention_softmax_of_filled _ _ _ _ _ _ _ Hd Hatt)
      as (s & Hs & -> & Hr & Hc & Hfill).
    exists s. split; [exact Hs|]. split; [reflexivity|].
    intros Hij.
    assert (Hsj : get s i j = neg_1e9).
    { apply Hfill. apply hidden_casual_mask; lia. }
    split; [exact Hsj|].
    intros j' Hj'.
    assert (Hle : get (Tensor.softmax s) i j <= exp (neg_1e9 - get s i j')).
    { rewrite <- Hsj. apply softmax_le_gap; lia. }
    assert (Hpos : 0 < get (Tensor.softmax s) i j) by (apply softmax_pos; lia).
    split; [split; [lra | exact Hle]|].
    intros Hvis. unfold approx_zero. rewrite Rabs_right by lra.
    apply Rle_trans with (1 := Hle). apply exp_below_tol.
    unfold neg_1e9. lra.
Qed.

(** [casual_mask_lower_triangle] at length 2 with zero queries and keys:
    position 1 is hidden from query 0, whose weight on it is approximately
    0. *)
Lemma casual_mask_lower_triangle_witness :
  get (casual_mask 2) 0 1 = false /\ get (casual_mask 2) 1 1 = true
  /\ exists out w,
       attention (Examples.full 2 1 0) (Examples.full 2 1 0)
                 (Examples.full 2 1 0)
                 (Some (to_int (casual_mask 2))) None = Ok (out, w)
       /\ approx_zero (get w 0 1).
Proof.
  split; [reflexivity|]. split; [reflexivity|].
  eexists. eexists. split; [reflexivity|].
  edestruct (casual_mask_lower_triangle 2 0 1
               (Examples.full 2 1 0) (Examples.full 2 1 0)
               (Examples.full 2 1 0) None) as [_ Hw]; [lia | lia |].
  destruct Hw as (s & Hs & _ & Hfut);
    [exact I | simpl; lia | reflexivity | reflexivity | reflexivity |].
  destruct (Hfut ltac:(lia)) as [_ Hsmall].
  destruct (Hsmall O ltac:(lia)) as [_ Hz].
  apply Hz. injection Hs as <-. simpl.
  unfold Rdiv. rewrite Rmult_0_l, Rplus_0_l, Rmult_0_l. lra.
Defined.

(** C2, as stated, fails: the positions after [i] do not get zero mass.
    With two positions of one feature, the query 1 and the first key -2e9,
    position 1 is hidden from query 0 and yet receives more than half of
    its weight, the score -1e9 that stands for it being the greater one. *)
Lemma casual_mask_future_weight :
  exists out w,
    attention (Examples.full 2 1 1) Examples.low_first_key (Examples.full 2 1 0)
              (Some (to_int (casual_mask 2))) None = Ok (out, w)
    /\ hidden (to_int (casual_mask 2)) 0 1
    /\ / 2 < get w 0 1
    /\ get w 0 1 <> 0.
Proof.
  eexists. eexists. split; [reflexivity|].
  split; [reflexivity|].
  assert (Hw : / 2 < exp neg_1e9
                     / (0 + exp ((0 + 1 * - 2000000000) / sqrt (INR 1))
                        + exp neg_1e9)).
  { simpl INR. rewrite sqrt_1.
    replace ((0 + 1 * - 2000000000) / 1) with (- 2000000000) by field.
    pose proof (exp_pos (- 2000000000)) as Hlow.
    assert (Hlt : exp (- 2000000000) < exp neg_1e9)
      by (apply exp_increasing; unfold neg_1e9; lra).
    apply Rmult_lt_reg_r with (0 + exp (- 2000000000) + exp neg_1e9); [lra|].
    unfold Rdiv. rewrite Rmult_assoc, Rinv_l by lra. lra. }
  simpl. split; [exact Hw|].
  apply Rgt_not_eq. apply Rlt_trans with (/ 2); [lra | exact Hw].
Qed.

End CausalMask.

(** ** Construction of a multi-head attention block *)

Section Construction.

Import MHA.
Local Open Scope Z_scope.

Lemma Linear_ok (n : Z) : 0 <= n -> Linear n n = Ok (n, n).
Proof.
  intros Hn. unfold Linear.
  destruct (Z.ltb_spec n 0); [lia|]. reflexivity.
Qed.

Lemma Dropout_ok (p : Q) : (0 <= p)%Q -> (p <= 1)%Q -> Dropout p = Ok p.
Proof.
  intros H0 H1. unfold Dropout.
  apply Qle_bool_iff in H0, H1. now rewrite H0, H1.
Qed.

(** C3.  When the head count does not divide the model dimension,
    construction fails: on the assertion when the head count is not zero,
    on the division itself when it is.  When a non-zero head count divides
    a model dimension that is not negative, and the dropout rate is a
    probability, construction succeeds and the per-head dimension is the
    quotient. *)
Theorem init_divisibility (d_model h : Z) (dropout : Q) :
  (~ (h | d_model) -> raises (init d_model h dropout))
  /\ (h <> 0 -> d_model mod h <> 0 ->
      init d_model h dropout = Raise AssertionError)
  /\ (h <> 0 -> (h | d_model) -> 0 <= d_model ->
      (0 <= dropout)%Q -> (dropout <= 1)%Q ->
      exists block,
        init d_model h dropout = Ok block
        /\ MHA.d_model block = d_model /\ MHA.h block = h
        /\ MHA.d_k block = d_model / h
        /\ MHA.d_k block * h = d_model).
Proof.
  assert (Hassert : h <> 0 -> d_model mod h <> 0 ->
                    init d_model h dropout = Raise AssertionError).
  { intros Hh Hmod. unfold init, py_mod.
    destruct (Z.eqb_spec h 0); [contradiction|]. simpl.
    destruct (Z.eqb_spec (d_model mod h) 0); [contradiction|]. reflexivity. }
  split; [|split].
  - intros Hndiv. destruct (Z.eq_dec h 0) as [->|Hh].
    + exists ZeroDivisionError. reflexivity.
    + exists AssertionError. apply Hassert; [exact Hh|].
      intros Hmod. apply Hndiv. now apply Z.mod_divide.
  - exact Hassert.
  - intros Hh Hdiv Hd Hp0 Hp1.
    apply Z.mod_divide in Hdiv; [|exact Hh].
    unfold init, py_mod, py_floordiv.
    destruct (Z.eqb_spec h 0); [contradiction|]. simpl.
    rewrite Hdiv. simpl.
    rewrite Linear_ok by exact Hd. simpl.
    rewrite Dropout_ok by assumption. simpl.
    eexists. split; [reflexivity|]. simpl.
    repeat split.
    pose proof (Z.div_mod d_model h Hh). lia.
Qed.

(** [init_divisibility] at the notebook's defaults (512, 8, 0.1) and at a
    head count 7 that does not divide 512. *)
Lemma init_divisibility_witness :
  (exists block, init 512 8 (1 # 10) = Ok block /\ MHA.d_k block = 64)
  /\ init 512 7 (1 # 10) = Raise AssertionError.
Proof.
  pose proof (init_divisibility 512 8 (1 # 10)) as (_ & _ & Hok).
  pose proof (init_divisibility 512 7 (1 # 10)) as (_ & Hfail & _).
  split.
  - destruct Hok as (block & Hinit & _ & _ & Hdk & _).
    + lia.
    + exists 64. reflexivity.
    + lia.
    + unfold Qle. simpl. lia.
    + unfold Qle. simpl. lia.
    + exists block. split; [exact Hinit|]. rewrite Hdk. reflexivity.
  - apply Hfail; [lia|]. vm_compute. discriminate.
Defined.

End Construction.

(** ** Dataset items *)

Section DatasetItems.

Import Dataset.
Local Open Scope Z_scope.

Lemma len_app (l1 l2 : list Z) : len (l1 ++ l2) = len l1 + len l2.
Proof. unfold len. rewrite length_app. lia. Qed.

Lemma len_py_repeat (x n : Z) : 0 <= n -> len (py_repeat x n) = n.
Proof.
  intros Hn. unfold len, py_repeat. rewrite repeat_length. lia.
Qed.

Lemma len_cons (x : Z) (l : list Z) : len (x :: l) = 1 + len l.
Proof. unfold len. simpl length. lia. Qed.

Lemma len_nil : len [] = 0.
Proof. reflexivity. Qed.

Ltac len_solve :=
  repeat (rewrite len_app || rewrite len_cons || rewrite len_nil);
  rewrite ?len_py_repeat by lia; lia.

Lemma getitem_cases (self : BilingualDataset) (index : nat) (src tgt : string) :
  nth_error (ds self) index = Some (src, tgt) ->
  let n_src := len (encode_ids (tokenizer_src self) src) in
  let n_tgt := len (encode_ids (tokenizer_tgt self) tgt) in
  (n_src > seq_len self - 2 \/ n_tgt > seq_len self - 1 ->
   getitem self index = Raise ValueError)
  /\ (n_src <= seq_len self - 2 -> n_tgt <= seq_len self - 1 ->
      getitem self index = Ok (built_item self src tgt)).
Proof.
  intros Hnth n_src n_tgt. unfold getitem. rewrite Hnth.
  fold n_src n_tgt. split.
  - intros Hlong.
    destruct (Z.ltb_spec (seq_len self - n_src - 2) 0);
      destruct (Z.ltb_spec (seq_len self - n_tgt - 1) 0);
      simpl; try reflexivity; lia.
  - intros Hs Ht.
    destruct (Z.ltb_spec (seq_len self - n_src - 2) 0); [lia|].
    destruct (Z.ltb_spec (seq_len self - n_tgt - 1) 0); [lia|].
    simpl orb. cbv iota.
    assert (He : len ([sos_token self] ++ encode_ids (tokenizer_src self) src
                        ++ [eos_token self]
                        ++ py_repeat (pad_token self)
                             (seq_len self - n_src - 2)) = seq_len self).
    { fold n_src. subst n_src n_tgt. len_solve. }
    assert (Hd : len ([sos_token self] ++ encode_ids (tokenizer_tgt self) tgt
                        ++ py_repeat (pad_token self)
                             (seq_len self - n_tgt - 1)) = seq_len self).
    { subst n_src n_tgt. len_solve. }
    assert (Hl : len (encode_ids (tokenizer_tgt self) tgt
                        ++ [eos_token self]
                        ++ py_repeat (pad_token self)
                             (seq_len self - n_tgt - 1)) = seq_len self).
    { subst n_src n_tgt. len_solve. }
    rewrite He, Hd, Hl, Z.eqb_refl. reflexivity.
Qed.

(** C7.  For an example of the dataset, [__getitem__] raises exactly when
    the tokenized source has more than [seq_len - 2] tokens or the tokenized
    target more than [seq_len - 1]; the error is then a ValueError.
    Otherwise it returns an item that holds every token of both sequences,
    and whose encoder input, decoder input and label have length
    [seq_len]. *)
Theorem getitem_length_check (self : BilingualDataset) (index : nat)
    (src tgt : string) :
  nth_error (ds self) index = Some (src, tgt) ->
  let enc := encode_ids (tokenizer_src self) src in
  let dec := encode_ids (tokenizer_tgt self) tgt in
  (raises (getitem self index)
     <-> (len enc > seq_len self - 2 \/ len dec > seq_len self - 1))
  /\ (raises (getitem self index) -> getitem self index = Raise ValueError)
  /\ (forall it, getitem self index = Ok it ->
        len (encoder_input it) = seq_len self
        /\ len (decoder_input it) = seq_len self
        /\ len (label it) = seq_len self
        /\ firstn (S (length enc)) (encoder_input it) = sos_token self :: enc
        /\ firstn (S (length dec)) (decoder_input it) = sos_token self :: dec
        /\ firstn (length dec) (label it) = dec).
Proof.
  intros Hnth enc dec.
  destruct (getitem_cases self index src tgt Hnth) as [Hlong Hfit].
  fold enc dec in Hlong, Hfit.
  destruct (Z_le_gt_dec (len enc) (seq_len self - 2)) as [Hs|Hs];
    [destruct (Z_le_gt_dec (len dec) (seq_len self - 1)) as [Ht|Ht]|].
  - specialize (Hfit Hs Ht). rewrite Hfit.
    split; [|split].
    + split; [intros [e He]; discriminate | lia].
    + intros [e He]. discriminate.
    + intros it Hit. injection Hit as <-.
      cbn [built_item encoder_input decoder_input label]. fold enc dec.
      repeat split; try len_solve.
      * change ([sos_token self] ++ enc ++ ?r) with ((sos_token self :: enc) ++ r).
        change (S (length enc)) with (length (sos_token self :: enc)).
        now rewrite firstn_app, firstn_all, Nat.sub_diag, firstn_O, app_nil_r.
      * change ([sos_token self] ++ dec ++ ?r) with ((sos_token self :: dec) ++ r).
        change (S (length dec)) with (length (sos_token self :: dec)).
        now rewrite firstn_app, firstn_all, Nat.sub_diag, firstn_O, app_nil_r.
      * now rewrite firstn_app, firstn_all, Nat.sub_diag, firstn_O, app_nil_r.
  - rewrite Hlong by (right; exact Ht).
    split; [|split].
    + split; [intros _; right; exact Ht | intros _; now exists ValueError].
    + reflexivity.
    + intros it Hit. discriminate.
  - rewrite Hlong by (left; exact Hs).
    split; [|split].
    + split; [intros _; left; exact Hs | intros _; now exists ValueError].
    + reflexivity.
    + intros it Hit. discriminate.
Qed.

(** [getitem_length_check] on the toy dataset: five source tokens and two
    target tokens fit in sequences of length 10. *)
Lemma getitem_length_check_witness :
  exists it, getitem Examples.toy_dataset 0 = Ok it
    /\ len (encoder_input it) = 10 /\ len (decoder_input it) = 10
    /\ len (label it) = 10.
Proof.
  eexists. split; [reflexivity|].
  destruct (getitem_length_check Examples.toy_dataset 0 "abcde" "ab" eq_refl)
    as (_ & _ & Hok).
  destruct (Hok _ eq_refl) as (He & Hd & Hl & _).
  exact (conj He (conj Hd Hl)).
Defined.

End DatasetItems.

Section PaddingMask.

Import Dataset.
Local Open Scope Z_scope.

Lemma getitem_ok_inv (self : BilingualDataset) (index : nat) (it : item) :
  getitem self index = Ok it ->
  exists src tgt,
    nth_error (ds self) index = Some (src, tgt)
    /\ it = built_item self src tgt.
Proof.
  unfold getitem.
  destruct (nth_error (ds self) index) as [[src tgt]|]; [|discriminate].
  destruct (_ || _)%bool; [discriminate|].
  destruct (MHA.py_assert _); simpl; [|discriminate].
  destruct (MHA.py_assert _); simpl; [|discriminate].
  destruct (MHA.py_assert _); simpl; [|discriminate].
  intros H. injection H as <-. now exists src, tgt.
Qed.

Lemma ne_int_nth (l : list Z) (pad : Z) (p : nat) :
  (p < length l)%nat ->
  nth p (ne_int l pad) 0 = if nth p l 0 =? pad then 0 else 1.
Proof.
  revert p. induction l as [|x l IH]; intros p Hp; simpl in Hp; [lia|].
  destruct p as [|p]; simpl; [reflexivity|].
  apply IH. lia.
Qed.

(** C8.  In every item the dataset produces, the encoder mask has one
    entry per position of the encoder input; the entry is 0 exactly where
    the encoder input holds the pad id and 1 everywhere else. *)
Theorem encoder_mask_hides_pad (self : BilingualDataset) (index : nat)
    (it : item) :
  getitem self index = Ok it ->
  length (encoder_mask it) = length (encoder_input it)
  /\ forall p, (p < length (encoder_input it))%nat ->
       (nth p (encoder_mask it) 0 = 0
          <-> nth p (encoder_input it) 0 = pad_token self)
       /\ (nth p (encoder_mask it) 0 = 1
          <-> nth p (encoder_input it) 0 <> pad_token self).
Proof.
  intros Hit.
  destruct (getitem_ok_inv _ _ _ Hit) as (src & tgt & _ & ->).
  cbn [built_item encoder_mask encoder_input].
  split; [apply length_map|].
  intros p Hp. rewrite ne_int_nth by exact Hp.
  destruct (Z.eqb_spec
              (nth p ([sos_token self] ++ encode_ids (tokenizer_src self) src
                        ++ [eos_token self]
                        ++ py_repeat (pad_token self)
                             (seq_len self
                              - len (encode_ids (tokenizer_src self) src) - 2))
                   0)
              (pad_token self)) as [He|He];
    repeat split; intros; try lia; try assumption; try discriminate.
Qed.

(** [encoder_mask_hides_pad] on the padding scenario: a sequence of length
    10 whose pad id 1 stands at positions 7, 8 and 9 gets a mask that is 0
    at those three positions and 1 at the seven others. *)
Lemma encoder_mask_hides_pad_witness :
  exists it, getitem Examples.toy_dataset 0 = Ok it
    /\ encoder_input it = [2; 7; 7; 7; 7; 7; 3; 1; 1; 1]
    /\ encoder_mask it = [1; 1; 1; 1; 1; 1; 1; 0; 0; 0]
    /\ (nth 7 (encoder_mask it) 0 = 0 <-> nth 7 (encoder_input it) 0 = 1).
Proof.
  eexists. split; [reflexivity|].
  split; [reflexivity|]. split; [reflexivity|].
  destruct (encoder_mask_hides_pad Examples.toy_dataset 0 _ eq_refl)
    as [_ Hpos].
  destruct (Hpos 7%nat) as [H0 _]; [simpl; lia|].
  exact H0.
Defined.

End PaddingMask.

(** ** Broadcasting *)

Section Broadcasting.

Import PositionalEncoding.

Lemma bsize_same (n : nat) : bsize n n = Some n.
Proof. unfold bsize. now rewrite Nat.eqb_refl. Qed.

Lemma bsize_one_r (n : nat) : bsize n 1 = Some n.
Proof.
  unfold bsize. destruct (Nat.eqb_spec n 1) as [->|Hn]; [reflexivity|].
  reflexivity.
Qed.

Lemma bsize_one_l (n : nat) : bsize 1 n = Some n.
Proof.
  unfold bsize. destruct (Nat.eqb_spec 1 n) as [<-|Hn]; reflexivity.
Qed.

End Broadcasting.

(** ** The softmax helper of the attention exercise *)

Section NumpySoftmaxFacts.

Import NumpySoftmax.
Local Open Scope R_scope.

Lemma max_upto_ge (f : nat -> R) (k j : nat) :
  (j <= k)%nat -> f j <= max_upto f k.
Proof.
  induction k as [|k IH]; intros Hj; simpl.
  - replace j with O by lia. lra.
  - destruct (Nat.eq_dec j (S k)) as [->|Hne].
    + apply Rmax_r.
    + apply Rle_trans with (max_upto f k); [apply IH; lia | apply Rmax_l].
Qed.

Lemma max_upto_attained (f : nat -> R) (k : nat) :
  exists j, (j <= k)%nat /\ f j = max_upto f k.
Proof.
  induction k as [|k (j & Hj & IH)]; simpl.
  - exists O. split; [lia | reflexivity].
  - destruct (Rmax_case (max_upto f k) (f (S k))
                (fun r => r = max_upto f k \/ r = f (S k))) as [H|H];
      [now left | now right | |].
    + exists j. split; [lia|]. now rewrite H.
    + exists (S k). split; [lia|]. now rewrite H.
Qed.

Lemma np_max_spec (x : tensor R) :
  (0 < rows x)%nat -> (0 < cols x)%nat ->
  exists m, np_max x = Ok m
    /\ (forall i j, (i < rows x)%nat -> (j < cols x)%nat -> get x i j <= m)
    /\ (exists i j, (i < rows x)%nat /\ (j < cols x)%nat /\ get x i j = m).
Proof.
  intros Hr Hc. unfold np_max.
  destruct (Nat.eqb_spec (rows x) 0); [lia|].
  destruct (Nat.eqb_spec (cols x) 0); [lia|]. simpl.
  eexists. split; [reflexivity|]. split.
  - intros i j Hi Hj.
    apply Rle_trans with (max_upto (get x i) (cols x - 1)).
    + apply max_upto_ge. lia.
    + apply (max_upto_ge (fun i => max_upto (get x i) (cols x - 1))). lia.
  - destruct (max_upto_attained
                (fun i => max_upto (get x i) (cols x - 1)) (rows x - 1))
      as (i & Hi & Hrow).
    destruct (max_upto_attained (get x i) (cols x - 1)) as (j & Hj & Hcol).
    exists i, j. repeat split; try lia.
    rewrite <- Hrow. exact Hcol.
Qed.

Lemma ln_2_bounds : / 2 < ln 2 < 1.
Proof.
  split; [exact ln_lt_2|].
  rewrite <- (ln_exp 1). apply ln_increasing; [lra|].
  pose proof (exp_ineq1 1). lra.
Qed.

Lemma exp_underflow_bounds : - 1075 < exp_underflow < - 537.
Proof. unfold exp_underflow. pose proof ln_2_bounds. lra. Qed.

Lemma exp64_zero (t : R) : t <= exp_underflow -> exp64 t = 0.
Proof. intros Ht. unfold exp64. destruct (Rle_dec t exp_underflow); lra. Qed.

Lemma exp64_above (t : R) : exp_underflow < t -> exp64 t = exp t.
Proof.
  intros Ht. unfold exp64. destruct (Rle_dec t exp_underflow); [lra|].
  reflexivity.
Qed.

Lemma exp64_nonneg (t : R) : 0 <= exp64 t.
Proof.
  unfold exp64. destruct (Rle_dec t exp_underflow); [lra|].
  left. apply exp_pos.
Qed.

Lemma exp64_le_1 (t : R) : t <= 0 -> exp64 t <= 1.
Proof.
  intros Ht. unfold exp64. destruct (Rle_dec t exp_underflow); [lra|].
  rewrite <- exp_0. destruct Ht as [Hlt| ->]; [|lra].
  left. now apply exp_increasing.
Qed.

Lemma exp64_mono (a b : R) : a <= b -> exp64 a <= exp64 b.
Proof.
  intros Hab. unfold exp64.
  destruct (Rle_dec a exp_underflow), (Rle_dec b exp_underflow); try lra.
  - left. apply exp_pos.
  - destruct Hab as [Hlt| ->]; [|lra]. left. now apply exp_increasing.
Qed.

Lemma sum_n_zero (f : nat -> R) (n : nat) :
  (forall k, (k < n)%nat -> f k = 0) -> sum_n f n = 0.
Proof.
  induction n as [|n IH]; intros Hf; simpl; [reflexivity|].
  rewrite IH, Hf by (intros; try apply Hf; lia). lra.
Qed.

(** The result of the helper, entry by entry. *)
Lemma numpy_softmax_entries (x : tensor R) :
  (0 < rows x)%nat -> (0 < cols x)%nat ->
  exists m y,
    np_max x = Ok m /\ shifted x = Ok (sub_scalar x m) /\ softmax x = Ok y
    /\ rows y = rows x /\ cols y = cols x
    /\ (forall i j, (i < rows x)%nat -> (j < cols x)%nat ->
          get x i j <= m
          /\ get y i j
             = div64 (exp64 (get x i j - m))
                     (sum_n (fun k => exp64 (get x i k - m)) (cols x))).
Proof.
  intros Hr Hc.
  destruct (np_max_spec x Hr Hc) as (m & Hm & Hub & _).
  exists m. unfold softmax, shifted, div. rewrite Hm.
  cbn [Py.bind rows cols np_exp sub_scalar Tensor.map sum_keepdims].
  rewrite bsize_same, bsize_one_r.
  eexists. split; [reflexivity|]. split; [reflexivity|].
  split; [reflexivity|]. split; [reflexivity|]. split; [reflexivity|].
  intros i j Hi Hj. split; [now apply Hub|].
  unfold bget, row_sum.
  cbn [rows cols get np_exp sub_scalar Tensor.map sum_keepdims].
  now rewrite !(bidx_in_range (rows x) i), !(bidx_in_range (cols x) j)
    by assumption.
Qed.

(** The result of the softmax that subtracts the maximum of each row. *)
Lemma softmax_row_max_entries (x : tensor R) :
  (0 < cols x)%nat ->
  exists y,
    softmax_row_max x = Ok y
    /\ forall i j, (i < rows x)%nat -> (j < cols x)%nat ->
         get y i j
         = div64 (exp64 (get x i j - row_max x i))
                 (sum_n (fun k => exp64 (get x i k - row_max x i)) (cols x)).
Proof.
  intros Hc. unfold softmax_row_max, div.
  destruct (Nat.eqb_spec (cols x) 0); [lia|].
  cbn [rows cols np_exp Tensor.map sum_keepdims].
  rewrite bsize_same, bsize_one_r.
  eexists. split; [reflexivity|].
  intros i j Hi Hj. unfold bget, row_sum.
  cbn [rows cols get np_exp Tensor.map sum_keepdims].
  now rewrite !(bidx_in_range (rows x) i), !(bidx_in_range (cols x) j)
    by assumption.
Qed.

Lemma np_max_far_rows : np_max Examples.far_rows = Ok 1.
Proof.
  unfold np_max. simpl.
  rewrite (Rmax_right 0 1), (Rmax_left (- 2000) (- 2001)) by lra.
  now rewrite Rmax_left by lra.
Qed.

(** C9.  Recomputing the numerator changes nothing: the helper equals
    [exp_x / exp_x.sum(axis=-1, keepdims=True)] with
    [exp_x = exp(x - max(x))].  But the maximum it subtracts is that of the
    whole array: on [[0, 1], [-2000, -2001]] the second row, whose own
    maximum is -2000, becomes (-2001, -2002), both exponentials are 0 and
    the row of the result is NaN, whereas subtracting the maximum of each
    row gives a second row of two numbers that sum to 1. *)
Theorem softmax_far_row_nan :
  (forall x, softmax x = softmax_nonredundant x)
  /\ (exists s y,
        shifted Examples.far_rows = Ok s
        /\ softmax Examples.far_rows = Ok y
        /\ row_max Examples.far_rows 1 = - 2000
        /\ get s 1 0 = - 2001 /\ get s 1 1 = - 2002
        /\ get y 1 0 = NaN /\ get y 1 1 = NaN)
  /\ (exists y' a b,
        softmax_row_max Examples.far_rows = Ok y'
        /\ get y' 1 0 = Num a /\ get y' 1 1 = Num b
        /\ a + b = 1).
Proof.
  pose proof exp_underflow_bounds as Hu.
  split; [|split].
  - intros x. unfold softmax, softmax_nonredundant.
    destruct (shifted x); reflexivity.
  - destruct (numpy_softmax_entries Examples.far_rows)
      as (m & y & Hm & Hs & Hy & _ & _ & Hget); [simpl; lia | simpl; lia |].
    rewrite np_max_far_rows in Hm. injection Hm as <-.
    exists (sub_scalar Examples.far_rows 1), y.
    split; [exact Hs|]. split; [exact Hy|].
    split; [unfold row_max; simpl; apply Rmax_left; lra|].
    split; [simpl; lra|]. split; [simpl; lra|].
    assert (Hrow : forall j, (j < 2)%nat -> get y 1 j = NaN).
    { intros j Hj.
      destruct (Hget 1%nat j) as [_ ->]; [simpl; lia | exact Hj |].
      assert (Hz : forall k, (k < 2)%nat ->
                exp64 (get Examples.far_rows 1 k - 1) = 0).
      { intros k Hk. apply exp64_zero.
        destruct k as [|[|k]]; simpl; try lra; lia. }
      cbn [cols Examples.far_rows].
      rewrite sum_n_zero, Hz by assumption.
      unfold div64. destruct (Req_dec_T 0 0); [reflexivity | lra]. }
    split; apply Hrow; lia.
  - destruct (softmax_row_max_entries Examples.far_rows)
      as (y' & Hy' & Hget); [simpl; lia|].
    assert (Hrm : row_max Examples.far_rows 1 = - 2000)
      by (unfold row_max; simpl; apply Rmax_left; lra).
    pose proof (exp_pos (- 1)) as He.
    assert (Hsum : sum_n (fun k => exp64 (get Examples.far_rows 1 k - - 2000)) 2
                   = 1 + exp (- 1)).
    { simpl. replace (- 2000 - - 2000) with 0 by lra.
      replace (- 2001 - - 2000) with (- 1) by lra.
      rewrite !exp64_above, exp_0 by lra. lra. }
    exists y', (1 / (1 + exp (- 1))), (exp (- 1) / (1 + exp (- 1))).
    split; [exact Hy'|].
    rewrite !Hget by (simpl; lia). rewrite Hrm.
    cbn [cols Examples.far_rows]. rewrite Hsum.
    unfold div64. destruct (Req_dec_T (1 + exp (- 1)) 0) as [H0|_]; [lra|].
    simpl. replace (- 2000 - - 2000) with 0 by lra.
    replace (- 2001 - - 2000) with (- 1) by lra.
    rewrite !exp64_above, exp_0 by lra.
    split; [reflexivity|]. split; [reflexivity|]. field. lra.
Qed.

End NumpySoftmaxFacts.

(** ** The positional encoding table *)

Section PositionalTable.

Import PositionalEncoding.
Local Open Scope R_scope.

Lemma half_bounds (n : nat) : (2 * (n / 2) <= n < 2 * (n / 2) + 2)%nat.
Proof.
  pose proof (Nat.div_mod_eq n 2) as H.
  pose proof (Nat.mod_upper_bound n 2) as Hm. lia.
Qed.

Lemma bidx_one (i : nat) : bidx 1 i = O.
Proof. reflexivity. Qed.

Lemma even_double (k : nat) : Nat.even (2 * k) = true.
Proof. apply Nat.even_spec. exists k. reflexivity. Qed.

Lemma even_double_pred (k : nat) : (1 <=? 2 * k)%nat && Nat.even (2 * k - 1) = false.
Proof.
  destruct (Nat.leb_spec 1 (2 * k)) as [Hk|Hk]; [|reflexivity].
  destruct (Nat.even (2 * k - 1)) eqn:E; [|reflexivity].
  apply Nat.even_spec in E. destruct E as [m Hm]. lia.
Qed.

Lemma set_cols_step2_inv (t : tensor R) (start : nat) (src t' : tensor R) :
  set_cols_step2 t start src = Ok t' ->
  rows t' = rows t /\ cols t' = cols t
  /\ forall i j, get t' i j =
       if (start <=? j)%nat && Nat.even (j - start)
       then bget src i ((j - start) / 2)
       else get t i j.
Proof.
  unfold set_cols_step2.
  destruct (_ && _)%bool; [|discriminate].
  intros H. injection H as <-. auto.
Qed.

(** The product [position * div_term] of the column of positions with the
    row of frequencies. *)
Lemma mul_position (seq_len : nat) (t : tensor R) :
  rows t = 1%nat ->
  mul (arange_column seq_len) t
  = Ok (mk seq_len (cols t)
           (fun i j => bget (arange_column seq_len) i j * bget t i j)).
Proof.
  intros Hr. unfold mul. cbn [rows cols arange_column].
  now rewrite Hr, bsize_one_r, bsize_one_l.
Qed.

Lemma init_inv (d_model seq_len : nat) (pe : tensor R) :
  init d_model seq_len = Ok pe ->
  rows pe = seq_len /\ cols pe = d_model
  /\ forall pos k, (pos < seq_len)%nat ->
       ((2 * k < d_model)%nat -> get pe pos (2 * k) = sin (angle d_model pos k))
       /\ ((2 * k + 1 < d_model)%nat ->
           get pe pos (2 * k + 1) = cos (angle d_model pos k)).
Proof.
  unfold init.
  destruct (Nat.eqb_spec d_model 0) as [|Hd]; cbn [Py.bind]; [discriminate|].
  set (c := - ln 10000 / INR d_model).
  set (div_term := Tensor.map exp (mul_scalar (arange_step2 d_model) c)).
  rewrite (mul_position seq_len div_term) by reflexivity. cbn [Py.bind].
  set (ang := mk seq_len (cols div_term) _).
  destruct (set_cols_step2 (zeros seq_len d_model) 0 (Tensor.map sin ang))
    as [pe0|] eqn:H0; cbn [Py.bind]; [|discriminate].
  destruct (set_cols_step2 pe0 1 (Tensor.map cos ang))
    as [pe1|] eqn:H1; cbn [Py.bind]; [|discriminate].
  intros H. injection H as <-.
  apply set_cols_step2_inv in H0, H1.
  destruct H0 as (Hr0 & Hc0 & Hg0). destruct H1 as (Hr1 & Hc1 & Hg1).
  cbn [rows cols zeros] in Hr0, Hc0.
  split; [congruence|]. split; [congruence|].
  assert (Hang : forall (f : R -> R) pos k, (pos < seq_len)%nat -> (2 * k < d_model)%nat ->
            bget (Tensor.map f ang) pos k = f (angle d_model pos k)).
  { intros f pos k Hpos Hk. unfold ang, div_term, angle.
    pose proof (half_bounds (d_model + 1)) as Hh.
    repeat (unfold bget;
            cbn [rows cols get Tensor.map mul_scalar arange_step2 arange_column]).
    rewrite !(bidx_in_range seq_len pos) by exact Hpos.
    rewrite !(bidx_in_range ((d_model + 1) / 2) k) by lia.
    reflexivity. }
  intros pos k Hpos. split; intros Hk.
  - rewrite Hg1, even_double_pred, Hg0.
    cbn [Nat.leb]. rewrite Nat.sub_0_r, even_double. cbn [andb].
    replace (2 * k / 2)%nat with k
      by (pose proof (half_bounds (2 * k)); lia).
    now apply Hang.
  - rewrite Hg1.
    replace (2 * k + 1 - 1)%nat with (2 * k)%nat by lia.
    rewrite even_double.
    destruct (Nat.leb_spec 1 (2 * k + 1)) as [_|]; [|lia]. cbn [andb].
    replace (2 * k / 2)%nat with k
      by (pose proof (half_bounds (2 * k)); lia).
    apply Hang; [exact Hpos | lia].
Qed.

Lemma init_returns (d_model seq_len : nat) :
  (0 < d_model)%nat -> Nat.even d_model = true ->
  exists pe, init d_model seq_len = Ok pe.
Proof.
  intros Hd He. unfold init.
  destruct (Nat.eqb_spec d_model 0) as [|_]; [lia|]. cbn [Py.bind].
  rewrite mul_position by reflexivity. cbn [Py.bind].
  apply Nat.even_spec in He. destruct He as [m Hm].
  pose proof (half_bounds (d_model + 1)) as Hh.
  pose proof (half_bounds (d_model - 1 + 1)) as Hh'.
  unfold set_cols_step2, broadcastable, slice2_len.
  cbn [rows cols Tensor.map zeros mul_scalar arange_step2 Py.bind].
  rewrite Nat.sub_0_r, !Nat.eqb_refl. cbn [orb andb Py.bind rows cols].
  replace ((d_model + 1) / 2 =? (d_model - 1 + 1) / 2)%nat with true
    by (symmetry; apply Nat.eqb_eq; lia).
  rewrite Nat.eqb_refl. cbn [orb andb Py.bind]. eauto.
Qed.

(** C6.  The table is a function of [(d_model, seq_len)] alone: two
    constructions with the same arguments give the same table.  It is built
    for every even, non-zero [d_model], and whenever it is built it has
    [seq_len] rows of [d_model] entries, a sine at each even index and a
    cosine at each odd index, so that row 0 reads 0, 1, 0, 1, ... *)
Theorem positional_table (d_model seq_len : nat) :
  ((0 < d_model)%nat -> Nat.even d_model = true ->
   exists pe, init d_model seq_len = Ok pe)
  /\ (forall pe pe', init d_model seq_len = Ok pe ->
        init d_model seq_len = Ok pe' -> pe = pe')
  /\ (forall pe, init d_model seq_len = Ok pe ->
        rows pe = seq_len /\ cols pe = d_model
        /\ (forall pos k, (pos < seq_len)%nat ->
              ((2 * k < d_model)%nat ->
               get pe pos (2 * k) = sin (angle d_model pos k))
              /\ ((2 * k + 1 < d_model)%nat ->
                  get pe pos (2 * k + 1) = cos (angle d_model pos k)))
        /\ (forall k, (0 < seq_len)%nat ->
              ((2 * k < d_model)%nat -> get pe 0 (2 * k) = 0)
              /\ ((2 * k + 1 < d_model)%nat -> get pe 0 (2 * k + 1) = 1))).
Proof.
  split; [apply init_returns|]. split.
  - intros pe pe' H H'. rewrite H in H'. now injection H'.
  - intros pe Hpe.
    destruct (init_inv _ _ _ Hpe) as (Hr & Hc & Hg).
    repeat split; try assumption; try (now apply Hg).
    + intros Hk. destruct (Hg O k H) as [Hs _].
      rewrite Hs by exact Hk. unfold angle. simpl INR at 1.
      rewrite Rmult_0_l. apply sin_0.
    + intros Hk. destruct (Hg O k H) as [_ Hcs].
      rewrite Hcs by exact Hk. unfold angle. simpl INR at 1.
      rewrite Rmult_0_l. apply cos_0.
Qed.

(** [positional_table] at [d_model = 4] and [seq_len = 3]: the table is
    built and its row 0 is 0, 1, 0, 1. *)
Lemma positional_table_witness :
  exists pe, init 4 3 = Ok pe
    /\ get pe 0 0 = 0 /\ get pe 0 1 = 1 /\ get pe 0 2 = 0 /\ get pe 0 3 = 1.
Proof.
  destruct (positional_table 4 3) as (Hex & _ & Hrows).
  destruct Hex as [pe Hpe]; [lia | reflexivity |].
  exists pe. split; [exact Hpe|].
  destruct (Hrows pe Hpe) as (_ & _ & _ & Hzero).
  destruct (Hzero 0%nat) as [H0 H1]; [lia|].
  destruct (Hzero 1%nat) as [H2 H3]; [lia|].
  repeat split; [apply H0 | apply H1 | apply H2 | apply H3]; simpl; lia.
Defined.

End PositionalTable.

(** ** Greedy decoding *)

Section GreedyFacts.

Import Greedy.
Local Open Scope Z_scope.

Variables Enc Hidden : Type.
Variable model : Transformer Enc Hidden.
Variable source_mask : list Z.
Variables eos_idx max_len : Z.
Variable enc : Enc.

Let loop (fuel : nat) := greedy_loop fuel model source_mask eos_idx max_len enc.
Let calls := iteration_calls model enc source_mask.
Let next := next_token model enc source_mask.

Lemma loop_stop (fuel : nat) (dec : list Z) (log : list (call Hidden)) :
  Z.of_nat (length dec) = max_len ->
  loop (S fuel) dec log = (Returned dec, log).
Proof.
  intros H. unfold loop. simpl. apply Z.eqb_eq in H. now rewrite H.
Qed.

Lemma loop_raise (fuel : nat) (dec : list Z) (log : list (call Hidden)) (e : exn) :
  Z.of_nat (length dec) <> max_len ->
  next dec = Raise e ->
  loop (S fuel) dec log = (Raised e, log ++ calls dec).
Proof.
  intros H Hn. unfold loop, next, next_token, calls, iteration_calls in *.
  apply Z.eqb_neq in H. cbn [greedy_loop]. rewrite H.
  unfold call_casual_mask, call_decode, call_project, emit, ret, lift, bindM.
  cbv beta iota.
  destruct (last_position _) as [x|e']; cbn [Py.bind] in Hn.
  - rewrite Hn. rewrite <- !app_assoc. reflexivity.
  - injection Hn as ->. rewrite <- !app_assoc. reflexivity.
Qed.

Lemma loop_next (fuel : nat) (dec : list Z) (log : list (call Hidden)) (w : Z) :
  Z.of_nat (length dec) <> max_len ->
  next dec = Ok w ->
  loop (S fuel) dec log
  = if w =? eos_idx then (Returned (dec ++ [w]), log ++ calls dec)
    else loop fuel (dec ++ [w]) (log ++ calls dec).
Proof.
  intros H Hn. unfold loop, next, next_token, calls, iteration_calls in *.
  apply Z.eqb_neq in H. cbn [greedy_loop]. rewrite H.
  unfold call_casual_mask, call_decode, call_project, emit, ret, lift, bindM.
  cbv beta iota.
  destruct (last_position _) as [x|e']; cbn [Py.bind] in Hn; [|discriminate].
  rewrite Hn. rewrite <- !app_assoc.
  destruct (w =? eos_idx); reflexivity.
Qed.

Lemma firstn_length_app (l r : list Z) : firstn (length l) (l ++ r) = l.
Proof. induction l as [|x l IH]; simpl; [reflexivity | now rewrite IH]. Qed.

Lemma length_snoc (l : list Z) (w : Z) : length (l ++ [w]) = S (length l).
Proof. rewrite length_app. simpl. lia. Qed.

(** What a run of the loop that returns has done. *)
Lemma loop_returned (fuel : nat) :
  forall (dec : list Z) (log : list (call Hidden)) (seq : list Z)
         (log' : list (call Hidden)),
  loop fuel dec log = (Returned seq, log') ->
  exists suffix,
    seq = dec ++ suffix
    /\ log' = log ++ flat_map (fun k => calls (firstn k seq))
                              (List.seq (length dec) (length suffix))
    /\ (forall k, (length dec <= k < length seq)%nat ->
          Z.of_nat k <> max_len /\ next (firstn k seq) = Ok (nth k seq 0))
    /\ (forall k, (length dec <= k)%nat -> (S k < length seq)%nat ->
          nth k seq 0 <> eos_idx)
    /\ (Z.of_nat (length seq) = max_len
        \/ (suffix <> [] /\ last seq 0 = eos_idx)).
Proof.
  induction fuel as [|fuel IH]; intros dec log seq log' Hrun.
  - discriminate.
  - destruct (Z.eq_dec (Z.of_nat (length dec)) max_len) as [Hlen|Hlen].
    + rewrite loop_stop in Hrun by exact Hlen.
      injection Hrun as <- <-. exists []. rewrite !app_nil_r.
      split; [reflexivity|]. split; [reflexivity|].
      split; [|split].
      * intros k Hk. lia.
      * intros k Hk Hk2. lia.
      * now left.
    + destruct (next dec) as [w|e] eqn:Hn.
      2:{ rewrite (loop_raise _ _ _ e) in Hrun by assumption. discriminate. }
      rewrite (loop_next _ _ _ w) in Hrun by assumption.
      destruct (Z.eqb_spec w eos_idx) as [Hw|Hw].
      * injection Hrun as <- <-. exists [w]. simpl.
        rewrite firstn_length_app, app_nil_r, length_snoc.
        split; [reflexivity|]. split; [reflexivity|].
        split; [|split].
        -- intros k Hk. replace k with (length dec) by lia.
           rewrite firstn_length_app, nth_middle. now split.
        -- intros k Hk Hk2. lia.
        -- right. split; [discriminate|]. now rewrite last_last.
      * destruct (IH _ _ _ _ Hrun) as (suffix & Hseq & Hlog & Hstep & Hne & Hend).
        rewrite length_snoc in Hlog, Hstep, Hne.
        rewrite <- app_assoc in Hseq. simpl in Hseq.
        assert (Hfirst : firstn (length dec) seq = dec)
          by (rewrite Hseq; apply firstn_length_app).
        assert (Hnth : nth (length dec) seq 0 = w)
          by (rewrite Hseq; apply nth_middle).
        exists (w :: suffix). simpl. rewrite Hfirst.
        split; [exact Hseq|]. split; [|split; [|split]].
        -- rewrite Hlog, <- app_assoc. reflexivity.
        -- intros k Hk. destruct (Nat.eq_dec k (length dec)) as [->|Hk'].
           ++ now rewrite Hfirst, Hnth.
           ++ apply Hstep. lia.
        -- intros k Hk Hk2. destruct (Nat.eq_dec k (length dec)) as [->|Hk'].
           ++ now rewrite Hnth.
           ++ apply Hne; lia.
        -- destruct Hend as [Hend|[_ Hend]]; [now left|].
           right. split; [discriminate | exact Hend].
Qed.

(** The loop leaves within [max_len - length dec + 1] iterations. *)
Lemma loop_terminates (fuel : nat) :
  forall (dec : list Z) (log : list (call Hidden)),
  Z.of_nat (length dec) <= max_len ->
  (Z.to_nat max_len - length dec < fuel)%nat ->
  fst (loop fuel dec log) <> OutOfFuel.
Proof.
  induction fuel as [|fuel IH]; intros dec log Hle Hfuel; [lia|].
  destruct (Z.eq_dec (Z.of_nat (length dec)) max_len) as [Hlen|Hlen].
  - rewrite loop_stop by exact Hlen. discriminate.
  - destruct (next dec) as [w|e] eqn:Hn.
    + rewrite (loop_next _ _ _ w) by assumption.
      destruct (w =? eos_idx); [discriminate|].
      apply IH; rewrite length_snoc; lia.
    + rewrite (loop_raise _ _ _ e) by assumption. discriminate.
Qed.

Lemma next_well_shaped (dec : list Z) :
  well_shaped model -> dec <> [] -> exists w, next dec = Ok w.
Proof.
  intros [Hdec Hproj] Hne. unfold next, next_token.
  specialize (Hdec enc source_mask dec
                (to_int (casual_mask (length dec))) Hne).
  assert (Hlast : forall out : list Hidden, out <> [] ->
            exists x, last_position out = Ok x).
  { induction out as [|x out IHout]; intros Hout; [contradiction|].
    destruct out as [|y out]; [now exists x|].
    apply IHout. discriminate. }
  destruct (Hlast _ Hdec) as [x ->]. cbn [Py.bind].
  specialize (Hproj x). unfold torch_max.
  destruct (project model x); [contradiction | eauto].
Qed.

(** With a well-shaped model the loop returns a sequence. *)
Lemma loop_returns (fuel : nat) :
  forall (dec : list Z) (log : list (call Hidden)),
  well_shaped model -> dec <> [] ->
  Z.of_nat (length dec) <= max_len ->
  (Z.to_nat max_len - length dec < fuel)%nat ->
  exists seq, fst (loop fuel dec log) = Returned seq.
Proof.
  induction fuel as [|fuel IH]; intros dec log Hws Hne Hle Hfuel; [lia|].
  destruct (Z.eq_dec (Z.of_nat (length dec)) max_len) as [Hlen|Hlen].
  - rewrite loop_stop by exact Hlen. now exists dec.
  - destruct (next_well_shaped dec Hws Hne) as [w Hn].
    rewrite (loop_next _ _ _ w) by assumption.
    destruct (w =? eos_idx); [now exists (dec ++ [w])|].
    apply IH; try assumption.
    + destruct dec; discriminate.
    + rewrite length_snoc. lia.
    + rewrite length_snoc. lia.
Qed.

Lemma mask_sizes_app (l1 l2 : list (call Hidden)) :
  mask_sizes (l1 ++ l2) = mask_sizes l1 ++ mask_sizes l2.
Proof. apply flat_map_app. Qed.

Lemma decode_lengths_app (l1 l2 : list (call Hidden)) :
  decode_lengths (l1 ++ l2) = decode_lengths l1 ++ decode_lengths l2.
Proof. apply flat_map_app. Qed.

Lemma sizes_calls (dec : list Z) :
  mask_sizes (calls dec) = [length dec]
  /\ decode_lengths (calls dec) = [length dec]
  /\ filter is_encode (calls dec) = [].
Proof.
  unfold calls, iteration_calls.
  destruct (last_position _); repeat split.
Qed.

(** Every iteration sees a decoder input one token longer than the one
    before, and none is entered at length [max_len]. *)
Lemma loop_grows (fuel : nat) :
  forall (dec : list Z) (log : list (call Hidden)),
  Z.of_nat (length dec) <= max_len ->
  exists n,
    mask_sizes (snd (loop fuel dec log))
    = mask_sizes log ++ List.seq (length dec) n
    /\ decode_lengths (snd (loop fuel dec log))
       = decode_lengths log ++ List.seq (length dec) n
    /\ Z.of_nat (length dec + n) <= max_len.
Proof.
  induction fuel as [|fuel IH]; intros dec log Hle.
  - exists O. simpl. rewrite !app_nil_r. repeat split. lia.
  - destruct (Z.eq_dec (Z.of_nat (length dec)) max_len) as [Hlen|Hlen].
    + rewrite loop_stop by exact Hlen. exists O. simpl.
      rewrite !app_nil_r. repeat split. lia.
    + destruct (sizes_calls dec) as (Hm & Hd & _).
      destruct (next dec) as [w|e] eqn:Hn.
      * rewrite (loop_next _ _ _ w) by assumption.
        destruct (w =? eos_idx).
        -- exists 1%nat. simpl.
           rewrite mask_sizes_app, decode_lengths_app, Hm, Hd.
           repeat split. lia.
        -- destruct (IH (dec ++ [w]) (log ++ calls dec)) as (n & Hms & Hds & Hn').
           { rewrite length_snoc. lia. }
           rewrite length_snoc in Hms, Hds, Hn'.
           exists (S n). rewrite Hms, Hds.
           rewrite mask_sizes_app, decode_lengths_app, Hm, Hd, <- !app_assoc.
           repeat split. lia.
      * rewrite (loop_raise _ _ _ e) by assumption. exists 1%nat. simpl.
        rewrite mask_sizes_app, decode_lengths_app, Hm, Hd.
        repeat split. lia.
Qed.

End GreedyFacts.

Section GreedyDecode.

Import Greedy.
Local Open Scope Z_scope.

Variables Enc Hidden : Type.
Variable model : Transformer Enc Hidden.
Variables source source_mask : list Z.
Variables tokenizer_src tokenizer_tgt : Tokenizer.
Variable max_len : Z.

Let sos_idx := token_to_id tokenizer_tgt "[SOS]"%string.
Let eos_idx := token_to_id tokenizer_tgt "[EOS]"%string.
Let enc := encode model source source_mask.
Let decode_run (fuel : nat) :=
  run (greedy_decode fuel model source source_mask tokenizer_src tokenizer_tgt
                     max_len).

Lemma decode_run_loop (fuel : nat) :
  decode_run fuel
  = greedy_loop fuel model source_mask eos_idx max_len enc [sos_idx]
                [CallEncode source source_mask].
Proof. reflexivity. Qed.

Lemma no_encode_in_iterations (f : nat -> list Z) (l : list nat) :
  filter is_encode
         (flat_map (fun k => iteration_calls model enc source_mask (f k)) l)
  = [].
Proof.
  induction l as [|k l IH]; simpl; [reflexivity|].
  rewrite filter_app, IH, app_nil_r.
  apply (sizes_calls Enc Hidden model source_mask enc (f k)).
Qed.



End GreedyDecode.

Section GreedyExamples.

Import Greedy.
Local Open Scope Z_scope.




End GreedyExamples.

(** * Further properties of the code *)

(** ** Attention: shapes, averages, causal and padding masks *)

Section AttentionMore.

Import Attention.
Local Open Scope R_scope.

Lemma masked_scores_shape (query key : tensor R) (mask : option (tensor Z))
    (s : tensor R) :
  masked_scores query key mask = Ok s ->
  rows s = rows query /\ cols s = rows key /\ cols query = cols key.
Proof.
  unfold masked_scores, matmul, masked_fill.
  destruct (Nat.eqb_spec (cols query) (rows (transpose key))) as [He|];
    cbn [Py.bind]; [|discriminate].
  destruct mask as [m|].
  - destruct (_ && _)%bool; [|discriminate].
    intros H. injection H as <-. auto.
  - intros H. injection H as <-. auto.
Qed.

Lemma attention_inv_out (query key value : tensor R) (mask : option (tensor Z))
    (dropout : option (tensor R -> tensor R)) (out w : tensor R) :
  attention query key value mask dropout = Ok (out, w) ->
  cols w = rows value
  /\ rows out = rows w /\ cols out = cols value
  /\ forall i c, get out i c
                 = sum_n (fun k => get w i k * get value k c) (cols w).
Proof.
  unfold attention.
  destruct (masked_scores query key mask) as [s|e]; cbn [Py.bind];
    [|discriminate].
  set (w0 := match dropout with Some f => f _ | None => _ end).
  unfold matmul.
  destruct (Nat.eqb_spec (cols w0) (rows value)) as [He|]; cbn [Py.bind];
    [|discriminate].
  intros H. injection H as <- <-. auto.
Qed.

(** X1.  With a mask and a dropout that is absent or inactive, [attention]
    returns exactly when the shapes fit: the feature sizes of query and key
    agree, the mask broadcasts to (queries, keys), and there is one value
    row per key.  It then returns an output of shape (queries, value
    features) and weights of shape (queries, keys); otherwise it raises a
    RuntimeError. *)
Theorem attention_shapes (query key value : tensor R) (mask : tensor Z)
    (dropout : option (tensor R -> tensor R)) :
  inactive dropout ->
  (shapes_ok query key value mask = true ->
   exists out w,
     attention query key value (Some mask) dropout = Ok (out, w)
     /\ rows out = rows query /\ cols out = cols value
     /\ rows w = rows query /\ cols w = rows key)
  /\ (shapes_ok query key value mask = false ->
      attention query key value (Some mask) dropout = Raise RuntimeError).
Proof.
  intros Hd. split.
  - intros Hs.
    destruct (attention_returns _ _ _ _ _ Hd Hs) as (out & w & Hatt).
    exists out, w. split; [exact Hatt|].
    destruct (attention_softmax_of_filled _ _ _ _ _ _ _ Hd Hatt)
      as (s & _ & -> & Hr & Hc & _).
    destruct (attention_inv_out _ _ _ _ _ _ _ Hatt) as (_ & Hro & Hco & _).
    cbn [rows cols Tensor.softmax] in *. repeat split; congruence.
  - unfold shapes_ok, attention, masked_scores, matmul at 1, masked_fill.
    simpl.
    destruct (Nat.eqb (cols query) (cols key)); simpl; [|reflexivity].
    destruct (broadcastable (rows mask) (rows query)); simpl; [|reflexivity].
    destruct (broadcastable (cols mask) (rows key)); simpl; [|reflexivity].
    intros Hkv. rewrite inactive_dropout by exact Hd.
    unfold matmul. simpl. now rewrite Hkv.
Qed.

(** [attention_shapes] on one query and two keys, and on a value with a row
    too many. *)
Lemma attention_shapes_witness :
  (exists out w,
     attention (Examples.full 1 1 0) (Examples.full 2 1 0) (Examples.full 2 3 0)
               (Some Examples.mask_hide_first) None = Ok (out, w)
     /\ rows out = 1%nat /\ cols out = 3%nat)
  /\ attention (Examples.full 1 1 0) (Examples.full 2 1 0) (Examples.full 3 3 0)
               (Some Examples.mask_hide_first) None = Raise RuntimeError.
Proof.
  destruct (attention_shapes (Examples.full 1 1 0) (Examples.full 2 1 0)
              (Examples.full 2 3 0) Examples.mask_hide_first None I)
    as [Hok _].
  destruct (attention_shapes (Examples.full 1 1 0) (Examples.full 2 1 0)
              (Examples.full 3 3 0) Examples.mask_hide_first None I)
    as [_ Hbad].
  split.
  - destruct (Hok eq_refl) as (out & w & Hatt & Hr & Hc & _).
    exists out, w. auto.
  - apply Hbad. reflexivity.
Defined.

Lemma sum_n_weighted_le (p f : nat -> R) (hi : R) (n : nat) :
  (forall k, (k < n)%nat -> 0 <= p k) ->
  (forall k, (k < n)%nat -> f k <= hi) ->
  sum_n (fun k => p k * f k) n <= hi * sum_n p n.
Proof.
  induction n as [|n IH]; intros Hp Hf; simpl.
  - lra.
  - assert (H1 : sum_n (fun k => p k * f k) n <= hi * sum_n p n)
      by (apply IH; intros; [apply Hp | apply Hf]; lia).
    assert (H2 : 0 <= p n) by (apply Hp; lia).
    assert (H3 : f n <= hi) by (apply Hf; lia).
    nra.
Qed.

Lemma sum_n_weighted_ge (p f : nat -> R) (lo : R) (n : nat) :
  (forall k, (k < n)%nat -> 0 <= p k) ->
  (forall k, (k < n)%nat -> lo <= f k) ->
  lo * sum_n p n <= sum_n (fun k => p k * f k) n.
Proof.
  induction n as [|n IH]; intros Hp Hf; simpl.
  - lra.
  - assert (H1 : lo * sum_n p n <= sum_n (fun k => p k * f k) n)
      by (apply IH; intros; [apply Hp | apply Hf]; lia).
    assert (H2 : 0 <= p n) by (apply Hp; lia).
    assert (H3 : lo <= f n) by (apply Hf; lia).
    nra.
Qed.

(** X2.  With a query of at least one feature, a dropout that is absent or
    inactive and at least one key, every entry of the output of [attention]
    is a weighted average of the entries of the same column of [value]: it
    lies between any two bounds that hold for that column, whether a mask
    is given or not. *)
Theorem attention_output_average (query key value : tensor R)
    (mask : option (tensor Z)) (dropout : option (tensor R -> tensor R))
    (out w : tensor R) (i c : nat) (lo hi : R) :
  inactive dropout ->
  (0 < cols query)%nat ->
  attention query key value mask dropout = Ok (out, w) ->
  (0 < rows key)%nat ->
  (forall k, (k < rows value)%nat -> lo <= get value k c <= hi) ->
  lo <= get out i c <= hi.
Proof.
  intros Hd Hdk Hatt Hkeys Hbound.
  destruct (attention_inv_out _ _ _ _ _ _ _ Hatt) as (Hcw & _ & _ & Hout).
  destruct (attention_inv _ _ _ _ _ _ _ Hatt) as (s & Hs & Hw).
  rewrite inactive_dropout in Hw by exact Hd.
  destruct (masked_scores_shape _ _ _ _ Hs) as (_ & Hcs & _).
  assert (Hpos : forall k, (k < cols w)%nat -> 0 <= get w i k).
  { intros k Hk. subst w. left. apply softmax_pos. exact Hk. }
  assert (Hsum : sum_n (get w i) (cols w) = 1).
  { subst w. apply (softmax_row_sum s i). cbn [cols Tensor.softmax] in *. lia. }
  rewrite Hout. split.
  - replace lo with (lo * sum_n (get w i) (cols w)) by (rewrite Hsum; ring).
    apply sum_n_weighted_ge; [exact Hpos|].
    intros k Hk. apply Hbound. lia.
  - replace hi with (hi * sum_n (get w i) (cols w)) by (rewrite Hsum; ring).
    apply sum_n_weighted_le; [exact Hpos|].
    intros k Hk. apply Hbound. lia.
Qed.

(** [attention_output_average] on one query, two keys and a value column
    holding 0 and 1. *)
Lemma attention_output_average_witness :
  exists out w,
    attention (Examples.full 1 1 0) (Examples.full 2 1 0) Examples.two_rows
              None None = Ok (out, w)
    /\ 0 <= get out 0 0 <= 1.
Proof.
  eexists. eexists. split; [reflexivity|].
  eapply (attention_output_average
            (Examples.full 1 1 0) (Examples.full 2 1 0) Examples.two_rows
            None None).
  - exact I.
  - simpl. lia.
  - reflexivity.
  - simpl. lia.
  - intros [|k] Hk; simpl; lra.
Defined.

End AttentionMore.

Section MaskedAttention.

Import Attention.
Local Open Scope R_scope.

(** X3.  Attention under the causal mask looks at no later key: with a
    dropout that is absent or inactive, the weights of query [i] are the
    same for two keys that agree on the rows of the positions up to [i],
    whatever their later rows and the values hold. *)
Theorem causal_attention_past_keys (query key key' value value' : tensor R)
    (L : nat) (dropout : option (tensor R -> tensor R))
    (out w out' w' : tensor R) (i : nat) :
  inactive dropout ->
  rows key = L -> rows key' = L -> (i < L)%nat ->
  (forall j c, (j <= i)%nat -> (c < cols key)%nat ->
     get key' j c = get key j c) ->
  attention query key value (Some (to_int (casual_mask L))) dropout
  = Ok (out, w) ->
  attention query key' value' (Some (to_int (casual_mask L))) dropout
  = Ok (out', w') ->
  forall j, (j < L)%nat -> get w' i j = get w i j.
Proof.
  intros Hd Hk Hk' Hi Hagree Hatt Hatt'.
  destruct (attention_softmax_of_filled _ _ _ _ _ _ _ Hd Hatt)
    as (s & Hs & -> & _ & Hc & Hfill).
  destruct (attention_softmax_of_filled _ _ _ _ _ _ _ Hd Hatt')
    as (s' & Hs' & -> & _ & Hc' & Hfill').
  destruct (masked_scores_inv _ _ _ _ Hs) as (_ & _ & Hget).
  destruct (masked_scores_inv _ _ _ _ Hs') as (_ & _ & Hget').
  destruct (masked_scores_shape _ _ _ _ Hs) as (_ & _ & Hqk).
  assert (Hsame : forall j, (j < L)%nat -> get s' i j = get s i j).
  { intros j Hj. destruct (Nat.lt_ge_cases i j) as [Hlt|Hge].
    - now rewrite Hfill, Hfill' by (apply hidden_casual_mask; lia).
    - rewrite Hget, Hget'.
      destruct (bget (to_int (casual_mask L)) i j =? 0)%Z; [reflexivity|].
      f_equal. apply sum_n_ext. intros k Hk0. rewrite Hagree by lia.
      reflexivity. }
  intros j Hj. cbn [get Tensor.softmax].
  rewrite Hc, Hc', Hk, Hk'.
  rewrite (sum_n_ext (fun k => exp (get s' i k)) (fun k => exp (get s i k)))
    by (intros k Hk0; now rewrite Hsame).
  now rewrite Hsame.
Qed.

(** [causal_attention_past_keys] on two positions and two keys that differ
    in the second row only: the weights of query 0 are the same. *)
Lemma causal_attention_past_keys_witness :
  exists out w out' w',
    attention (Examples.full 2 1 1) (Examples.full 2 1 0) (Examples.full 2 1 0)
              (Some (to_int (casual_mask 2))) None = Ok (out, w)
    /\ attention (Examples.full 2 1 1) Examples.two_rows (Examples.full 2 1 0)
                 (Some (to_int (casual_mask 2))) None = Ok (out', w')
    /\ get w' 0 0 = get w 0 0 /\ get w' 0 1 = get w 0 1.
Proof.
  eexists. eexists. eexists. eexists.
  split; [reflexivity|]. split; [reflexivity|].
  split;
    (eapply (causal_attention_past_keys
               (Examples.full 2 1 1) (Examples.full 2 1 0) Examples.two_rows
               (Examples.full 2 1 0) (Examples.full 2 1 0) 2 None);
     [ exact I
     | reflexivity
     | reflexivity
     | lia
     | intros j c Hj Hc; replace j with O by lia; reflexivity
     | reflexivity
     | reflexivity
     | lia ]).
Defined.

(** X4.  The attention weights do not depend on the rows of [key] at
    positions that the mask hides from every query: two keys that agree on
    every other row give the same weights, under a dropout that is absent
    or inactive. *)
Theorem attention_weights_ignore_hidden (query key key' value value' : tensor R)
    (mask : tensor Z) (dropout : option (tensor R -> tensor R))
    (out w out' w' : tensor R) :
  inactive dropout ->
  rows key' = rows key ->
  (forall j, (j < rows key)%nat ->
     (forall i, hidden mask i j)
     \/ (forall c, (c < cols key)%nat -> get key' j c = get key j c)) ->
  attention query key value (Some mask) dropout = Ok (out, w) ->
  attention query key' value' (Some mask) dropout = Ok (out', w') ->
  forall i j, (j < rows key)%nat -> get w' i j = get w i j.
Proof.
  intros Hd Hrows Hagree Hatt Hatt'.
  destruct (attention_softmax_of_filled _ _ _ _ _ _ _ Hd Hatt)
    as (s & Hs & -> & _ & Hc & Hfill).
  destruct (attention_softmax_of_filled _ _ _ _ _ _ _ Hd Hatt')
    as (s' & Hs' & -> & _ & Hc' & Hfill').
  destruct (masked_scores_inv _ _ _ _ Hs) as (_ & _ & Hget).
  destruct (masked_scores_inv _ _ _ _ Hs') as (_ & _ & Hget').
  destruct (masked_scores_shape _ _ _ _ Hs) as (_ & _ & Hqk).
  assert (Hsame : forall i j, (j < rows key)%nat -> get s' i j = get s i j).
  { intros i j Hj. destruct (Hagree j Hj) as [Hh|Heq].
    - now rewrite Hfill, Hfill' by apply Hh.
    - rewrite Hget, Hget'.
      destruct (bget mask i j =? 0)%Z; [reflexivity|].
      f_equal. apply sum_n_ext. intros k Hk. rewrite Heq by lia.
      reflexivity. }
  intros i j Hj. cbn [get Tensor.softmax].
  rewrite Hc, Hc', Hrows.
  rewrite (sum_n_ext (fun k => exp (get s' i k)) (fun k => exp (get s i k)))
    by (intros k Hk; now rewrite Hsame).
  now rewrite Hsame.
Qed.

(** [attention_weights_ignore_hidden] on two keys that differ only in the
    hidden row 0. *)
Lemma attention_weights_ignore_hidden_witness :
  exists out w out' w',
    attention (Examples.full 1 1 1) (Examples.full 2 1 0) (Examples.full 2 1 0)
              (Some Examples.mask_hide_first) None = Ok (out, w)
    /\ attention (Examples.full 1 1 1) MoreExamples.two_rows_swapped
                 (Examples.full 2 1 0)
                 (Some Examples.mask_hide_first) None = Ok (out', w')
    /\ get w' 0 1 = get w 0 1.
Proof.
  eexists. eexists. eexists. eexists.
  split; [reflexivity|]. split; [reflexivity|].
  eapply (attention_weights_ignore_hidden
            (Examples.full 1 1 1) (Examples.full 2 1 0)
            MoreExamples.two_rows_swapped
            (Examples.full 2 1 0) (Examples.full 2 1 0)
            Examples.mask_hide_first None).
  - exact I.
  - reflexivity.
  - intros [|j] Hj.
    + left. intros i. reflexivity.
    + right. intros c Hc. reflexivity.
  - reflexivity.
  - reflexivity.
  - simpl. lia.
Defined.

End MaskedAttention.

(** ** Dataset items: layout of the sequences and of the decoder mask *)

Section ItemLayout.

Import Dataset.
Local Open Scope Z_scope.

Lemma ne_int_app (l1 l2 : list Z) (pad : Z) :
  ne_int (l1 ++ l2) pad = ne_int l1 pad ++ ne_int l2 pad.
Proof. apply map_app. Qed.

Lemma ne_int_pads (pad : Z) (n : nat) :
  ne_int (repeat pad n) pad = repeat 0 n.
Proof.
  induction n as [|n IH]; simpl; [reflexivity|].
  now rewrite Z.eqb_refl, <- IH.
Qed.

Lemma ne_int_tokens (l : list Z) (pad : Z) :
  Forall (fun x => x <> pad) l -> ne_int l pad = repeat 1 (length l).
Proof.
  induction 1 as [|x l Hx _ IH]; simpl; [reflexivity|].
  destruct (Z.eqb_spec x pad); [contradiction|]. now rewrite <- IH.
Qed.

(** X5.  The decoder mask of an item is square, one row and one column per
    position of the decoder input, and its entry [(i, j)] is 1 exactly when
    [j <= i] and position [j] of the decoder input does not hold the pad
    id; every other entry is 0. *)
Theorem decoder_mask_entries (self : BilingualDataset) (index : nat)
    (it : item) (i j : nat) :
  getitem self index = Ok it ->
  (i < length (decoder_input it))%nat ->
  (j < length (decoder_input it))%nat ->
  rows (decoder_mask it) = length (decoder_input it)
  /\ cols (decoder_mask it) = length (decoder_input it)
  /\ get (decoder_mask it) i j
     = (if (j <=? i)%nat && negb (nth j (decoder_input it) 0 =? pad_token self)
        then 1 else 0).
Proof.
  intros Hit Hi Hj.
  destruct (getitem_ok_inv _ _ _ Hit) as (src & tgt & _ & ->).
  cbn [built_item decoder_mask decoder_input] in *.
  set (dec := [sos_token self] ++ _) in *.
  split; [reflexivity|]. split; [reflexivity|].
  unfold and_mask. cbn [get casual_mask eq_scalar Tensor.map triu ones rows cols].
  rewrite ne_int_nth by exact Hj.
  destruct (Z.eqb_spec (nth j dec 0) (pad_token self));
    destruct (Nat.leb_spec j i);
    destruct (Z.leb_spec 1 (Z.of_nat j - Z.of_nat i));
    try lia; reflexivity.
Qed.

(** [decoder_mask_entries] on the toy dataset, whose decoder input holds
    three tokens and seven pads: position 2 sees position 1 but neither
    position 3, which comes later, nor, from position 5, the pad at 4. *)
Lemma decoder_mask_entries_witness :
  exists it, getitem Examples.toy_dataset 0 = Ok it
    /\ get (decoder_mask it) 2 1 = 1
    /\ get (decoder_mask it) 2 3 = 0
    /\ get (decoder_mask it) 5 4 = 0.
Proof.
  eexists. split; [reflexivity|].
  destruct (decoder_mask_entries Examples.toy_dataset 0 _ 2 1 eq_refl)
    as (_ & _ & H1); [simpl; lia | simpl; lia |].
  destruct (decoder_mask_entries Examples.toy_dataset 0 _ 2 3 eq_refl)
    as (_ & _ & H2); [simpl; lia | simpl; lia |].
  destruct (decoder_mask_entries Examples.toy_dataset 0 _ 5 4 eq_refl)
    as (_ & _ & H3); [simpl; lia | simpl; lia |].
  rewrite H1, H2, H3. repeat split.
Defined.

Lemma nth_cons_app_pads (x : Z) (l tail : list Z) (k : nat) :
  (k < length l)%nat -> nth (S k) (x :: l ++ tail) 0 = nth k l 0.
Proof. intros Hk. simpl. now rewrite app_nth1. Qed.

(** X6.  Teacher forcing: in an item whose target has [n] tokens, the
    decoder input starts with the start token followed by these tokens, the
    label holds the same tokens one position earlier and the end token at
    position [n], and both hold the pad id at every later position. *)
Theorem label_shifts_decoder_input (self : BilingualDataset) (index : nat)
    (src tgt : string) (it : item) :
  nth_error (ds self) index = Some (src, tgt) ->
  getitem self index = Ok it ->
  let dec := encode_ids (tokenizer_tgt self) tgt in
  nth 0 (decoder_input it) 0 = sos_token self
  /\ (forall k, (k < length dec)%nat ->
        nth k (label it) 0 = nth k dec 0
        /\ nth (S k) (decoder_input it) 0 = nth k (label it) 0)
  /\ nth (length dec) (label it) 0 = eos_token self
  /\ (forall k, (length dec < k)%nat -> (Z.of_nat k < seq_len self) ->
        nth k (label it) 0 = pad_token self
        /\ nth k (decoder_input it) 0 = pad_token self).
Proof.
  intros Hnth Hit dec.
  destruct (getitem_ok_inv _ _ _ Hit) as (src' & tgt' & Hnth' & ->).
  rewrite Hnth in Hnth'. injection Hnth' as <- <-.
  cbn [built_item decoder_input label]. fold dec.
  set (pads := py_repeat (pad_token self) (seq_len self - len dec - 1)).
  assert (Hin : forall k, (Z.of_nat k < seq_len self - len dec - 1) ->
                  nth k pads 0 = pad_token self).
  { intros k Hk. unfold pads, py_repeat. apply nth_repeat_lt. lia. }
  split; [reflexivity|]. split; [|split].
  - intros k Hk. split.
    + now rewrite app_nth1.
    + cbn [app]. rewrite nth_cons_app_pads by exact Hk.
      now rewrite app_nth1.
  - rewrite app_nth2 by lia. now rewrite Nat.sub_diag.
  - intros k Hk Hlen. unfold len in Hin. split.
    + rewrite app_nth2 by lia.
      destruct (k - length dec)%nat as [|m] eqn:Hm; [lia|].
      cbn [app nth]. apply Hin. lia.
    + cbn [app]. destruct k as [|k]; [lia|]. cbn [nth].
      rewrite app_nth2 by lia. apply Hin. lia.
Qed.

(** [label_shifts_decoder_input] on the toy dataset, whose target has two
    tokens. *)
Lemma label_shifts_decoder_input_witness :
  exists it, getitem Examples.toy_dataset 0 = Ok it
    /\ nth 1 (decoder_input it) 0 = nth 0 (label it) 0
    /\ nth 2 (label it) 0 = 3.
Proof.
  eexists. split; [reflexivity|].
  destruct (label_shifts_decoder_input Examples.toy_dataset 0 "abcde" "ab" _
              eq_refl eq_refl) as (_ & Hshift & Heos & _).
  split.
  - destruct (Hshift 0%nat) as [_ H]; [simpl; lia|]. exact H.
  - exact Heos.
Defined.

(** X7.  When neither the source tokens nor the start and end tokens carry
    the pad id, the encoder mask of an item whose source has [m] tokens is
    [m + 2] ones followed by zeros up to the sequence length. *)
Theorem encoder_mask_prefix (self : BilingualDataset) (index : nat)
    (src tgt : string) (it : item) :
  nth_error (ds self) index = Some (src, tgt) ->
  getitem self index = Ok it ->
  let enc := encode_ids (tokenizer_src self) src in
  sos_token self <> pad_token self ->
  eos_token self <> pad_token self ->
  Forall (fun x => x <> pad_token self) enc ->
  encoder_mask it
  = repeat 1 (length enc + 2)
    ++ repeat 0 (Z.to_nat (seq_len self) - (length enc + 2)).
Proof.
  intros Hnth Hit enc Hsos Heos Htok.
  destruct (getitem_ok_inv _ _ _ Hit) as (src' & tgt' & Hnth' & ->).
  rewrite Hnth in Hnth'. injection Hnth' as <- <-.
  cbn [built_item encoder_mask]. fold enc.
  rewrite !ne_int_app. unfold py_repeat. rewrite ne_int_pads.
  rewrite (ne_int_tokens enc) by exact Htok.
  cbn [ne_int List.map].
  destruct (Z.eqb_spec (sos_token self) (pad_token self)); [contradiction|].
  destruct (Z.eqb_spec (eos_token self) (pad_token self)); [contradiction|].
  replace (Z.to_nat (seq_len self - len enc - 2))
    with (Z.to_nat (seq_len self) - (length enc + 2))%nat
    by (unfold len; lia).
  replace (length enc + 2)%nat with (S (length enc + 1)) by lia.
  cbn [repeat app]. f_equal.
  rewrite repeat_app. cbn [repeat]. now rewrite <- app_assoc.
Qed.

(** [encoder_mask_prefix] on the toy dataset: five source tokens give
    seven ones and three zeros. *)
Lemma encoder_mask_prefix_witness :
  exists it, getitem Examples.toy_dataset 0 = Ok it
    /\ encoder_mask it = repeat 1 7 ++ repeat 0 3.
Proof.
  eexists. split; [reflexivity|].
  apply (encoder_mask_prefix Examples.toy_dataset 0 "abcde" "ab" _
           eq_refl eq_refl).
  - discriminate.
  - discriminate.
  - repeat constructor; discriminate.
Defined.

End ItemLayout.

(** ** Greedy decoding: the choice of the token and runs without an end *)

Section GreedyMore.

Import Greedy.

Variables Enc Hidden : Type.
Variable model : Transformer Enc Hidden.
Variables source source_mask : list Z.
Variables tokenizer_src tokenizer_tgt : Tokenizer.
Variable max_len : Z.

Let sos_idx := token_to_id tokenizer_tgt "[SOS]"%string.
Let eos_idx := token_to_id tokenizer_tgt "[EOS]"%string.
Let enc := encode model source source_mask.
Let decode_run (fuel : nat) :=
  run (greedy_decode fuel model source source_mask tokenizer_src tokenizer_tgt
                     max_len).

(** [argmax_from] with the elements already seen in [pre]. *)
Lemma argmax_from_spec (l : list Q) :
  forall (pre : list Q) (best : Q) (best_i : nat),
  (best_i < length pre)%nat ->
  nth best_i pre 0%Q = best ->
  (forall m, (m < length pre)%nat -> (nth m pre 0 <= best)%Q) ->
  (forall m, (m < best_i)%nat -> (nth m pre 0 < best)%Q) ->
  let r := argmax_from best best_i (length pre) l in
  (r < length (pre ++ l))%nat
  /\ (forall m, (m < length (pre ++ l))%nat ->
        (nth m (pre ++ l) 0 <= nth r (pre ++ l) 0)%Q)
  /\ (forall m, (m < r)%nat -> (nth m (pre ++ l) 0 < nth r (pre ++ l) 0)%Q).
Proof.
  induction l as [|x l IH]; intros pre best best_i Hi Hbest Hmax Hfirst.
  - simpl. rewrite app_nil_r, Hbest. auto.
  - cbn [argmax_from].
    replace (pre ++ x :: l) with ((pre ++ [x]) ++ l)
      by (now rewrite <- app_assoc).
    replace (S (length pre)) with (length (pre ++ [x]))
      by (rewrite length_app; simpl; lia).
    assert (Hlt : forall m, (m < length pre)%nat ->
              nth m (pre ++ [x]) 0%Q = nth m pre 0%Q)
      by (intros m Hm; now apply app_nth1).
    assert (Hx : nth (length pre) (pre ++ [x]) 0%Q = x)
      by (now rewrite nth_middle).
    destruct (Qle_bool x best) eqn:Hcmp.
    + apply Qle_bool_iff in Hcmp.
      apply IH.
      * rewrite length_app. simpl. lia.
      * now rewrite Hlt.
      * intros m Hm. rewrite length_app in Hm. simpl in Hm.
        destruct (Nat.eq_dec m (length pre)) as [->|Hne].
        -- now rewrite Hx.
        -- rewrite Hlt by lia. apply Hmax. lia.
      * intros m Hm. rewrite Hlt by lia. now apply Hfirst.
    + assert (Hgt : (best < x)%Q).
      { apply Qnot_le_lt. intros Hle. apply Qle_bool_iff in Hle. congruence. }
      apply IH.
      * rewrite length_app. simpl. lia.
      * exact Hx.
      * intros m Hm. rewrite length_app in Hm. simpl in Hm.
        destruct (Nat.eq_dec m (length pre)) as [->|Hne].
        -- rewrite Hx. apply Qle_refl.
        -- rewrite Hlt by lia. apply Qle_trans with best.
           ++ apply Hmax. lia.
           ++ now apply Qlt_le_weak.
      * intros m Hm. rewrite Hlt by lia.
        apply Qle_lt_trans with best; [now apply Hmax | exact Hgt].
Qed.

(** The index that [torch.max] returns: within the list, of a greatest
    element, and the first of them. *)
Lemma torch_max_spec (prob : list Q) (z : Z) :
  torch_max prob = Ok z ->
  exists r, z = Z.of_nat r
    /\ (r < length prob)%nat
    /\ (forall m, (m < length prob)%nat -> (nth m prob 0 <= nth r prob 0)%Q)
    /\ (forall m, (m < r)%nat -> (nth m prob 0 < nth r prob 0)%Q).
Proof.
  destruct prob as [|x l]; [discriminate|].
  intros H. injection H as <-.
  exists (argmax_from x 0 1 l). split; [reflexivity|].
  apply (argmax_from_spec l [x] x 0%nat).
  - simpl. lia.
  - reflexivity.
  - intros [|m] Hm; simpl in *; [apply Qle_refl | lia].
  - intros m Hm. lia.
Qed.

(** X9.  Every token that a returning run of [greedy_decode] has appended
    after the start token is the index, within the vocabulary, of the first
    greatest entry of the projection of the decoder output at the last
    position, the decoder having been run on the tokens before it under the
    causal mask of their length. *)
Theorem greedy_decode_appends_argmax (fuel : nat) (seq : list Z)
    (log : list (call Hidden)) (k : nat) :
  decode_run fuel = (Returned seq, log) ->
  (1 <= k < length seq)%nat ->
  exists x r,
    last_position
      (decode model enc source_mask (firstn k seq) (to_int (casual_mask k)))
    = Ok x
    /\ nth k seq 0%Z = Z.of_nat r
    /\ (r < length (project model x))%nat
    /\ (forall m, (m < length (project model x))%nat ->
          (nth m (project model x) 0 <= nth r (project model x) 0)%Q)
    /\ (forall m, (m < r)%nat ->
          (nth m (project model x) 0 < nth r (project model x) 0)%Q).
Proof.
  intros Hrun Hk.
  change (decode_run fuel)
    with (greedy_loop fuel model source_mask eos_idx max_len enc [sos_idx]
                      [CallEncode source source_mask]) in Hrun.
  destruct (loop_returned Enc Hidden model source_mask eos_idx max_len enc
              fuel _ _ _ _ Hrun) as (suffix & Hseq & _ & Hstep & _ & _).
  destruct (Hstep k) as [_ Hnext]; [simpl; lia|].
  unfold next_token in Hnext.
  rewrite length_firstn, Nat.min_l in Hnext by lia.
  destruct (last_position _) as [x|e]; cbn [Py.bind] in Hnext; [|discriminate].
  destruct (torch_max_spec _ _ Hnext) as (r & Hr & Hlt & Hmax & Hfirst).
  exists x, r. auto.
Qed.

(** A loop entered with a decoder input longer than [max_len] never meets
    its length test. *)
Lemma loop_runs_out (fuel : nat) :
  forall (dec : list Z) (log : list (call Hidden)),
  (forall d, d <> [] ->
     exists w, next_token model enc source_mask d = Ok w /\ w <> eos_idx) ->
  dec <> [] ->
  (max_len < Z.of_nat (length dec))%Z ->
  fst (greedy_loop fuel model source_mask eos_idx max_len enc dec log)
  = OutOfFuel.
Proof.
  induction fuel as [|fuel IH]; intros dec log Hnext Hne Hlen;
    [reflexivity|].
  destruct (Hnext dec Hne) as (w & Hw & Hweos).
  rewrite (loop_next Enc Hidden model source_mask eos_idx max_len enc
             fuel dec log w) by (lia || exact Hw).
  destruct (Z.eqb_spec w eos_idx); [contradiction|].
  apply IH; [exact Hnext | |].
  - destruct dec; discriminate.
  - rewrite length_snoc. lia.
Qed.

(** X8.  With [max_len] below 1 the length test of [greedy_decode] is never
    met: if the model never selects the end token, no amount of fuel lets
    the loop return. *)
Theorem greedy_decode_no_exit (fuel : nat) :
  (max_len < 1)%Z ->
  (forall d, d <> [] ->
     exists w, next_token model enc source_mask d = Ok w /\ w <> eos_idx) ->
  fst (decode_run fuel) = OutOfFuel.
Proof.
  intros Hmax Hnext.
  apply (loop_runs_out fuel [sos_idx] [CallEncode source source_mask]);
    [exact Hnext | discriminate | simpl; lia].
Qed.

End GreedyMore.

Section GreedyMoreExamples.

Import Greedy.

(** [greedy_decode_no_exit] on the model that always selects token 0, with
    [max_len = 0] and twenty iterations of fuel. *)
Lemma greedy_decode_no_exit_witness :
  fst (run (greedy_decode 20 never_eos_model [] [] special_ids special_ids 0))
  = OutOfFuel.
Proof.
  apply (greedy_decode_no_exit unit unit never_eos_model [] [] special_ids
           special_ids 0 20); [lia|].
  intros d Hd. exists 0%Z. split; [|discriminate].
  unfold next_token. simpl decode.
  assert (Hlast : forall l : list Z, l <> [] ->
            last_position (List.map (fun _ => tt) l) = Ok tt).
  { induction l as [|a l IHl]; intros Hl; [contradiction|].
    destruct l as [|b l]; [reflexivity|].
    change (last_position (List.map (fun _ : Z => tt) (b :: l)) = Ok tt).
    apply IHl. discriminate. }
  rewrite Hlast by exact Hd. reflexivity.
Defined.

(** [greedy_decode_appends_argmax] on the model that always selects token
    3: the token appended at position 1 is index 3 of its projection. *)
Lemma greedy_decode_appends_argmax_witness :
  exists x r,
    last_position (decode eos_model tt [] [2%Z] (to_int (casual_mask 1)))
    = Ok x
    /\ 3%Z = Z.of_nat r
    /\ (r < length (project eos_model x))%nat.
Proof.
  destruct (greedy_decode_appends_argmax unit unit eos_model [] []
              special_ids special_ids 5 5 [2; 3]%Z _ 1 eq_refl)
    as (x & r & Hx & Hr & Hlt & _); [simpl; lia|].
  exists x, r. auto.
Defined.

End GreedyMoreExamples.

(** ** Layers *)

Section LinearFacts.

Local Open Scope R_scope.

(** What [nn.Linear] computes, and when it raises. *)
Lemma linear_forward_spec (self : LinearLayer.t) (x : tensor R) :
  (cols x = LinearLayer.in_features self ->
   exists y, LinearLayer.forward self x = Ok y
     /\ rows y = rows x /\ cols y = LinearLayer.out_features self
     /\ forall i j, (i < rows x)%nat -> (j < LinearLayer.out_features self)%nat ->
          get y i j
          = sum_n (fun k => get x i k * LinearLayer.weight self j k)
                  (LinearLayer.in_features self)
            + LinearLayer.bias self j)
  /\ (cols x <> LinearLayer.in_features self ->
      LinearLayer.forward self x = Raise RuntimeError).
Proof.
  unfold LinearLayer.forward, matmul, Layers.add.
  cbn [rows cols transpose LinearLayer.weight_tensor LinearLayer.bias_tensor].
  split; intros Hc.
  - rewrite Hc, Nat.eqb_refl. cbn [Py.bind rows cols].
    rewrite bsize_one_r, bsize_same.
    eexists. split; [reflexivity|]. cbn [rows cols get].
    split; [reflexivity|]. split; [reflexivity|].
    intros i j Hi Hj. unfold bget. cbn [rows cols get transpose].
    rewrite (bidx_in_range (rows x) i) by exact Hi.
    rewrite (bidx_in_range (LinearLayer.out_features self) j) by exact Hj.
    cbn [LinearLayer.weight_tensor LinearLayer.bias_tensor rows cols get].
    now rewrite (bidx_in_range (LinearLayer.out_features self) j) by exact Hj.
  - destruct (Nat.eqb_spec (cols x) (LinearLayer.in_features self));
      [contradiction | reflexivity].
Qed.

End LinearFacts.

Section LayerNormFacts.

Import LayerNormalization.
Local Open Scope R_scope.

Lemma sum_n_plus (f g : nat -> R) (n : nat) :
  sum_n (fun k => f k + g k) n = sum_n f n + sum_n g n.
Proof. induction n as [|n IH]; simpl; [lra | rewrite IH; lra]. Qed.

Lemma sum_n_scale (f : nat -> R) (c : R) (n : nat) :
  sum_n (fun k => c * f k) n = c * sum_n f n.
Proof. induction n as [|n IH]; simpl; [lra | rewrite IH; lra]. Qed.

Lemma sum_deviations (x : tensor R) (i : nat) :
  (0 < cols x)%nat ->
  sum_n (fun j => get x i j - mean x i) (cols x) = 0.
Proof.
  intros Hc. unfold Rminus.
  rewrite sum_n_plus, sum_n_const. unfold mean, row_sum.
  assert (0 < INR (cols x)) by (apply lt_0_INR; lia).
  field. lra.
Qed.

Lemma std_nonneg (x : tensor R) (i : nat) : 0 <= std x i.
Proof. apply sqrt_pos. Qed.

Lemma layer_norm_mean_bias (self : t) (x : tensor R) (i : nat) :
  (0 < cols x)%nat -> mean (forward self x) i = bias self.
Proof.
  intros Hc.
  unfold mean at 1, row_sum. cbn [forward cols get].
  rewrite (sum_n_ext _ (fun j => alpha self / (std x i + eps self)
                                 * (get x i j - mean x i) + bias self))
    by (intros j _; unfold Rdiv; ring).
  rewrite sum_n_plus, sum_n_scale, sum_deviations, sum_n_const by exact Hc.
  assert (0 < INR (cols x)) by (apply lt_0_INR; exact Hc).
  rewrite Rmult_0_r, Rplus_0_l. field. lra.
Qed.





End LayerNormFacts.

Section ProjectionFacts.

Local Open Scope R_scope.

Lemma exp_le_le (a b : R) : exp a <= exp b -> a <= b.
Proof.
  intros H. destruct (Rle_or_lt a b) as [|Hlt]; [assumption|].
  apply exp_increasing in Hlt. lra.
Qed.

(** A row of [log_softmax] holds the logarithms of a distribution. *)
Lemma log_softmax_distribution (z : tensor R) (i : nat) :
  (0 < cols z)%nat ->
  sum_n (fun j => exp (get (Layers.log_softmax z) i j)) (cols z) = 1
  /\ forall j, (j < cols z)%nat -> get (Layers.log_softmax z) i j <= 0.
Proof.
  intros Hc. cbn [get Layers.log_softmax].
  set (S := sum_n (fun k => exp (get z i k)) (cols z)).
  assert (HS : 0 < S).
  { apply sum_n_pos; [exact Hc|]. intros k _. apply exp_pos. }
  split.
  - rewrite (sum_n_ext _ (fun j => exp (get z i j) / S)).
    + rewrite sum_n_div. fold S. field. lra.
    + intros j _. unfold Rminus, Rdiv.
      now rewrite exp_plus, exp_Ropp, exp_ln.
  - intros j Hj.
    assert (Hle : exp (get z i j) <= S).
    { apply (sum_n_term_le (fun k => exp (get z i k))); [|exact Hj].
      intros k _. left. apply exp_pos. }
    rewrite <- (exp_ln S HS) in Hle. apply exp_le_le in Hle. lra.
Qed.

(** X12.  The projection layer raises a RuntimeError when the input does
    not have [in_features] columns.  Otherwise it returns one row per
    position and one column per word, and each row holds the logarithms of
    a probability distribution: no entry is above 0 and the exponentials of
    a row sum to 1.  The entries of a row are ordered like the outputs of
    the linear map they come from. *)
Theorem projection_log_probabilities (self : ProjectionLayer.t) (x : tensor R) :
  let lin := ProjectionLayer.proj self in
  (cols x <> LinearLayer.in_features lin ->
   ProjectionLayer.forward self x = Raise RuntimeError)
  /\ (cols x = LinearLayer.in_features lin ->
      (0 < LinearLayer.out_features lin)%nat ->
      exists z y,
        LinearLayer.forward lin x = Ok z
        /\ ProjectionLayer.forward self x = Ok y
        /\ rows y = rows x /\ cols y = LinearLayer.out_features lin
        /\ forall i,
             sum_n (fun j => exp (get y i j)) (cols y) = 1
             /\ (forall j, (j < cols y)%nat -> get y i j <= 0)
             /\ (forall j j', get z i j <= get z i j'
                              <-> get y i j <= get y i j')).
Proof.
  intros lin. unfold ProjectionLayer.forward. fold lin.
  destruct (linear_forward_spec lin x) as [Hok Hbad].
  split.
  - intros Hc. now rewrite (Hbad Hc).
  - intros Hc Hout. destruct (Hok Hc) as (z & Hz & Hr & Hcz & _).
    rewrite Hz. cbn [Py.bind]. exists z, (Layers.log_softmax z).
    split; [reflexivity|]. split; [reflexivity|].
    cbn [rows cols get Layers.log_softmax].
    split; [exact Hr|]. split; [exact Hcz|].
    intros i.
    destruct (log_softmax_distribution z i) as [Hsum Hneg]; [lia|].
    split; [exact Hsum|]. split; [exact Hneg|].
    intros j j'. split; intros; lra.
Qed.

(** [projection_log_probabilities] on a layer of one input and two words. *)
Lemma projection_log_probabilities_witness :
  exists y,
    ProjectionLayer.forward LayerExamples.two_words (Examples.full 1 1 1) = Ok y
    /\ exp (get y 0 0) + exp (get y 0 1) = 1.
Proof.
  destruct (projection_log_probabilities LayerExamples.two_words
              (Examples.full 1 1 1)) as [_ Hok].
  destruct Hok as (z & y & _ & Hy & _ & Hc & Hrow);
    [reflexivity | simpl; lia |].
  exists y. split; [exact Hy|].
  destruct (Hrow 0%nat) as [Hsum _]. rewrite Hc in Hsum. simpl in Hsum. lra.
Defined.

End ProjectionFacts.

Section FeedForwardFacts.

Local Open Scope R_scope.

(** X13.  The feed-forward block works position by position: with its
    dropout in evaluation mode, the output at a position is determined by
    the input at that position alone, whatever stands at the other
    positions and however many there are. *)
Theorem feed_forward_position_wise (self : FeedForwardBlock.t)
    (x x' y y' : tensor R) (i : nat) :
  Layers.identity (FeedForwardBlock.dropout self) ->
  FeedForwardBlock.forward self x = Ok y ->
  FeedForwardBlock.forward self x' = Ok y' ->
  (i < rows x)%nat -> (i < rows x')%nat ->
  (forall k, (k < cols x)%nat -> get x' i k = get x i k) ->
  forall j, (j < cols y)%nat -> get y' i j = get y i j.
Proof.
  intros Hd Hy Hy' Hi Hi' Hrow.
  unfold FeedForwardBlock.forward in Hy, Hy'.
  set (l1 := FeedForwardBlock.linear_1 self) in *.
  set (l2 := FeedForwardBlock.linear_2 self) in *.
  destruct (linear_forward_spec l1 x) as [Hok1 Hbad1].
  destruct (linear_forward_spec l1 x') as [Hok1' Hbad1'].
  destruct (Nat.eq_dec (cols x) (LinearLayer.in_features l1)) as [Hc|Hc];
    [|rewrite (Hbad1 Hc) in Hy; discriminate].
  destruct (Nat.eq_dec (cols x') (LinearLayer.in_features l1)) as [Hc'|Hc'];
    [|rewrite (Hbad1' Hc') in Hy'; discriminate].
  destruct (Hok1 Hc) as (h & Hh & Hrh & Hch & Hgh).
  destruct (Hok1' Hc') as (h' & Hh' & Hrh' & Hch' & Hgh').
  rewrite Hh in Hy. rewrite Hh' in Hy'. cbn [Py.bind] in Hy, Hy'.
  rewrite Hd in Hy, Hy'.
  destruct (linear_forward_spec l2 (Layers.relu h)) as [Hok2 Hbad2].
  destruct (linear_forward_spec l2 (Layers.relu h')) as [Hok2' Hbad2'].
  cbn [rows cols Layers.relu Tensor.map] in *.
  destruct (Nat.eq_dec (cols h) (LinearLayer.in_features l2)) as [Hc2|Hc2];
    [|rewrite (Hbad2 Hc2) in Hy; discriminate].
  assert (Hc2' : cols h' = LinearLayer.in_features l2) by congruence.
  destruct (Hok2 Hc2) as (y0 & Hy0 & Hry & Hcy & Hgy).
  destruct (Hok2' Hc2') as (y0' & Hy0' & Hry' & Hcy' & Hgy').
  rewrite Hy0 in Hy. rewrite Hy0' in Hy'.
  injection Hy as <-. injection Hy' as <-.
  intros j Hj. rewrite Hcy in Hj.
  rewrite Hgy, Hgy' by (assumption || lia).
  f_equal. apply sum_n_ext. intros k Hk.
  unfold Layers.relu. cbn [get Tensor.map]. f_equal. f_equal.
  rewrite Hgh, Hgh' by (assumption || lia).
  f_equal. apply sum_n_ext. intros m Hm. rewrite Hrow by lia. reflexivity.
Qed.

(** [feed_forward_position_wise] on a block of width 1: position 0 of a
    one-position input and of a two-position input with the same first
    row. *)
Lemma feed_forward_position_wise_witness :
  exists y y',
    FeedForwardBlock.forward LayerExamples.small_ffn (Examples.full 1 1 1) = Ok y
    /\ FeedForwardBlock.forward LayerExamples.small_ffn
         (mk 2 1 (fun i _ => match i with O => 1 | _ => 7 end)) = Ok y'
    /\ get y' 0 0 = get y 0 0.
Proof.
  eexists. eexists. split; [reflexivity|]. split; [reflexivity|].
  eapply (feed_forward_position_wise LayerExamples.small_ffn
            (Examples.full 1 1 1)
            (mk 2 1 (fun i _ => match i with O => 1 | _ => 7 end))).
  - intros t. reflexivity.
  - reflexivity.
  - reflexivity.
  - simpl. lia.
  - simpl. lia.
  - intros k Hk. reflexivity.
  - simpl. lia.
Defined.

End FeedForwardFacts.

Section EmbeddingFacts.

Import InputEmbeddings.
Local Open Scope R_scope.

Lemma forallb_false_exists {A : Type} (f : A -> bool) (l : list A) :
  forallb f l = false -> exists a, In a l /\ f a = false.
Proof.
  induction l as [|a l IH]; simpl; [discriminate|].
  destruct (f a) eqn:Ha; simpl.
  - intros H. destruct (IH H) as (b & Hb & Hfb). exists b. auto.
  - intros _. exists a. auto.
Qed.

(** X14.  The embedding layer raises an IndexError exactly when some id of
    the input is negative or not below the vocabulary size.  Otherwise it
    returns one row of [d_model] entries per id: the row of the table at
    that id, scaled by [sqrt(d_model)]. *)
Theorem embeddings_forward (self : t) (x : list Z) :
  (forward self x = Raise IndexError
   <-> exists id, In id x /\ (id < 0 \/ Z.of_nat (vocab_size self) <= id)%Z)
  /\ ((forall id, In id x -> (0 <= id < Z.of_nat (vocab_size self))%Z) ->
      exists y, forward self x = Ok y
        /\ rows y = length x /\ cols y = d_model self
        /\ forall i j, (i < length x)%nat ->
             get y i j
             = embedding self (Z.to_nat (nth i x 0%Z)) j
               * sqrt (INR (d_model self))).
Proof.
  unfold forward, lookup.
  assert (Hin : forall id, in_vocab self id = true
                  <-> (0 <= id < Z.of_nat (vocab_size self))%Z).
  { intros id. unfold in_vocab. rewrite andb_true_iff, Z.leb_le, Z.ltb_lt.
    tauto. }
  destruct (forallb (in_vocab self) x) eqn:Hall; cbn [Py.bind].
  - rewrite forallb_forall in Hall. split.
    + split; [discriminate|].
      intros (id & Hid & Hout). apply Hall, Hin in Hid. lia.
    + intros _. eexists. split; [reflexivity|]. repeat split.
  - destruct (forallb_false_exists _ _ Hall) as (id & Hid & Hf). split.
    + split; [|reflexivity]. intros _. exists id. split; [exact Hid|].
      destruct (Z_lt_ge_dec id 0) as [|H0]; [now left|].
      destruct (Z_lt_ge_dec id (Z.of_nat (vocab_size self))) as [H1|];
        [|right; lia].
      assert (in_vocab self id = true) by (apply Hin; lia). congruence.
    + intros Hgood. apply Hgood, Hin in Hid. congruence.
Qed.

(** [embeddings_forward] on a table of four words: the ids 2 and 3 are
    looked up, the id 4 is refused. *)
Lemma embeddings_forward_witness :
  (exists y, forward LayerExamples.four_words [2; 3]%Z = Ok y
     /\ rows y = 2%nat)
  /\ forward LayerExamples.four_words [2; 4]%Z = Raise IndexError.
Proof.
  destruct (embeddings_forward LayerExamples.four_words [2; 3]%Z)
    as [_ Hok].
  destruct (embeddings_forward LayerExamples.four_words [2; 4]%Z)
    as [[_ Hbad] _].
  split.
  - destruct Hok as (y & Hy & Hr & _).
    + intros id [<-|[<-|[]]]; simpl; lia.
    + exists y. auto.
  - apply Hbad. exists 4%Z. split; [simpl; auto | simpl; lia].
Defined.

End EmbeddingFacts.

Section PositionalFacts.

Import PositionalEncoding.
Local Open Scope R_scope.

(** X15.  The positional table cannot be built for a model dimension of 0,
    where the frequency term divides by zero, nor for an odd model
    dimension of 3 or more, where the cosines do not fit the odd
    columns. *)
Theorem positional_table_errors (d_model seq_len : nat) :
  (d_model = 0%nat -> init d_model seq_len = Raise ZeroDivisionError)
  /\ (Nat.odd d_model = true -> (3 <= d_model)%nat ->
      init d_model seq_len = Raise RuntimeError).
Proof.
  split.
  - intros ->. reflexivity.
  - intros Hodd Hd. unfold init.
    destruct (Nat.eqb_spec d_model 0) as [|_]; [lia|]. cbn [Py.bind].
    rewrite mul_position by reflexivity. cbn [Py.bind].
    apply Nat.odd_spec in Hodd. destruct Hodd as [m Hm].
    pose proof (half_bounds (d_model + 1)) as Hh.
    pose proof (half_bounds (d_model - 1 + 1)) as Hh'.
    unfold set_cols_step2, broadcastable, slice2_len.
    cbn [rows cols Tensor.map zeros mul_scalar arange_step2 Py.bind].
    rewrite Nat.sub_0_r, !Nat.eqb_refl. cbn [orb andb Py.bind rows cols].
    destruct (Nat.eqb_spec ((d_model + 1) / 2) ((d_model - 1 + 1) / 2));
      [lia|].
    destruct (Nat.eqb_spec ((d_model + 1) / 2) 1); [lia|].
    rewrite Nat.eqb_refl. reflexivity.
Qed.

(** [positional_table_errors] at the dimensions 0 and 5. *)
Lemma positional_table_errors_witness :
  init 0 4 = Raise ZeroDivisionError /\ init 5 4 = Raise RuntimeError.
Proof.
  destruct (positional_table_errors 0 4) as [H0 _].
  destruct (positional_table_errors 5 4) as [_ H5].
  split; [apply H0; reflexivity | apply H5; [reflexivity | lia]].
Defined.

(** X16.  Every entry of a positional table lies between -1 and 1, and the
    entries at the columns [2k] and [2k + 1] of a row are the sine and the
    cosine of one angle: their squares sum to 1. *)
Theorem positional_table_unit_circle (d_model seq_len : nat) (pe : tensor R)
    (pos : nat) :
  init d_model seq_len = Ok pe ->
  (pos < seq_len)%nat ->
  (forall j, (j < d_model)%nat -> -1 <= get pe pos j <= 1)
  /\ (forall k, (2 * k + 1 < d_model)%nat ->
        get pe pos (2 * k) * get pe pos (2 * k)
        + get pe pos (2 * k + 1) * get pe pos (2 * k + 1) = 1).
Proof.
  intros Hpe Hpos.
  destruct (init_inv _ _ _ Hpe) as (_ & _ & Hg).
  split.
  - intros j Hj. pose proof (half_bounds j) as Hh.
    destruct (Hg pos (j / 2)%nat Hpos) as [Hs Hc].
    destruct (Nat.eq_dec j (2 * (j / 2))) as [He|Ho].
    + rewrite He, Hs by lia. apply SIN_bound.
    + replace j with (2 * (j / 2) + 1)%nat by lia.
      rewrite Hc by lia. apply COS_bound.
  - intros k Hk. destruct (Hg pos k Hpos) as [Hs Hc].
    rewrite Hs, Hc by lia.
    pose proof (sin2_cos2 (angle d_model pos k)) as H. unfold Rsqr in H.
    exact H.
Qed.

(** [positional_table_unit_circle] on the table for four features and
    three positions. *)
Lemma positional_table_unit_circle_witness :
  exists pe, init 4 3 = Ok pe
    /\ get pe 2 2 * get pe 2 2 + get pe 2 3 * get pe 2 3 = 1.
Proof.
  destruct (init_returns 4 3) as [pe Hpe]; [lia | reflexivity |].
  exists pe. split; [exact Hpe|].
  destruct (positional_table_unit_circle 4 3 pe 2 Hpe) as [_ Hc]; [lia|].
  apply (Hc 1%nat). lia.
Defined.

(** X17.  Adding the positional table built for [(d_model, seq_len)] to an
    input of [d_model] features, with the dropout in evaluation mode: an
    input of at most [seq_len] positions gets the table entry of its
    position added to every entry; an input of more than [seq_len]
    positions raises a RuntimeError when [seq_len] is 2 or more, whereas a
    table of a single position is added to every position of a longer
    input. *)
Theorem positional_forward (d_model seq_len : nat) (table : tensor R)
    (dropout : tensor R -> tensor R) (x : tensor R) :
  init d_model seq_len = Ok table ->
  Layers.identity dropout ->
  let layer := {| PositionalEncodingLayer.pe := table;
                  PositionalEncodingLayer.dropout := dropout |} in
  ((rows x <= seq_len)%nat -> cols x = d_model ->
   exists y, PositionalEncodingLayer.forward layer x = Ok y
     /\ rows y = rows x /\ cols y = d_model
     /\ forall i j, (i < rows x)%nat -> (j < d_model)%nat ->
          get y i j = get x i j + get table i j)
  /\ ((2 <= seq_len)%nat -> (seq_len < rows x)%nat ->
      PositionalEncodingLayer.forward layer x = Raise RuntimeError)
  /\ (seq_len = 1%nat -> (1 < rows x)%nat -> cols x = d_model ->
      exists y, PositionalEncodingLayer.forward layer x = Ok y
        /\ rows y = rows x /\ cols y = d_model
        /\ forall i j, (i < rows x)%nat -> (j < d_model)%nat ->
             get y i j = get x i j + get table 0 j).
Proof.
  intros Htab Hd layer.
  destruct (init_inv _ _ _ Htab) as (Hr & Hc & _).
  unfold PositionalEncodingLayer.forward, Layers.add,
    PositionalEncodingLayer.first_rows.
  cbn [rows cols layer PositionalEncodingLayer.pe
       PositionalEncodingLayer.dropout].
  rewrite Hr, Hc. split; [|split].
  - intros Hrows Hcols.
    rewrite Nat.min_l, Hcols, !bsize_same by exact Hrows. cbn [Py.bind].
    rewrite Hd. eexists. split; [reflexivity|]. cbn [rows cols get].
    split; [reflexivity|]. split; [reflexivity|].
    intros i j Hi Hj. unfold bget. cbn [rows cols get]. rewrite Hcols.
    now rewrite !(bidx_in_range (rows x) i), !(bidx_in_range d_model j)
      by assumption.
  - intros Hseq Hlong. rewrite Nat.min_r by lia.
    unfold bsize.
    destruct (Nat.eqb_spec (rows x) seq_len); [lia|].
    destruct (Nat.eqb_spec (rows x) 1); [lia|].
    destruct (Nat.eqb_spec seq_len 1); [lia|]. reflexivity.
  - intros -> Hlong Hcols.
    rewrite Nat.min_r, Hcols, bsize_one_r, bsize_same by lia. cbn [Py.bind].
    rewrite Hd. eexists. split; [reflexivity|]. cbn [rows cols get].
    split; [reflexivity|]. split; [reflexivity|].
    intros i j Hi Hj. unfold bget. cbn [rows cols get]. rewrite Hcols.
    rewrite bidx_one.
    now rewrite !(bidx_in_range (rows x) i), !(bidx_in_range d_model j)
      by assumption.
Qed.

(** [positional_forward] on the table for four features and three
    positions: two positions pass, five are refused. *)
Lemma positional_forward_witness :
  exists table,
    init 4 3 = Ok table
    /\ (exists y,
          PositionalEncodingLayer.forward
            {| PositionalEncodingLayer.pe := table;
               PositionalEncodingLayer.dropout := fun t => t |}
            (Examples.full 2 4 0) = Ok y
          /\ rows y = 2%nat)
    /\ PositionalEncodingLayer.forward
         {| PositionalEncodingLayer.pe := table;
            PositionalEncodingLayer.dropout := fun t => t |}
         (Examples.full 5 4 0) = Raise RuntimeError.
Proof.
  destruct (init_returns 4 3) as [table Htab]; [lia | reflexivity |].
  exists table. split; [exact Htab|].
  destruct (positional_forward 4 3 table (fun t => t) (Examples.full 2 4 0)
              Htab (fun t => eq_refl)) as (Hok & _ & _).
  destruct (positional_forward 4 3 table (fun t => t) (Examples.full 5 4 0)
              Htab (fun t => eq_refl)) as (_ & Hbad & _).
  split.
  - destruct Hok as (y & Hy & Hr & _); [simpl; lia | reflexivity |].
    exists y. auto.
  - apply Hbad; simpl; lia.
Defined.

End PositionalFacts.

Section NumpySoftmaxMore.

Import NumpySoftmax.
Local Open Scope R_scope.



End NumpySoftmaxMore.

(** ** Multi-head attention *)

Section MultiHeadFacts.

Import MultiHeadAttention.
Local Open Scope R_scope.

Lemma nth_map_seq {B : Type} (f : nat -> B) (n a : nat) (d : B) :
  (a < n)%nat -> nth a (List.map f (seq 0 n)) d = f a.
Proof.
  intros Ha.
  rewrite (nth_indep _ d (f O)) by (now rewrite length_map, length_seq).
  rewrite map_nth, seq_nth by exact Ha. reflexivity.
Qed.

Lemma div_mod_block (j d_k h : nat) :
  (0 < d_k)%nat -> (j < h * d_k)%nat ->
  (j / d_k < h)%nat /\ (j mod d_k < d_k)%nat
  /\ (j / d_k * d_k + j mod d_k = j)%nat.
Proof.
  intros Hd Hj.
  pose proof (Nat.div_mod_eq j d_k) as Heq.
  pose proof (Nat.mod_upper_bound j d_k ltac:(lia)) as Hm.
  split; [|split; [exact Hm | lia]].
  apply Nat.Div0.div_lt_upper_bound. lia.
Qed.

(** X19.  Splitting a tensor of [h * d_k] columns into [h] heads of [d_k]
    columns and merging the heads again gives the tensor back: head [a]
    holds the columns from [a * d_k] on, and the merge puts them back in
    place. *)
Theorem split_merge_heads (x : tensor R) (h d_k : nat) :
  (0 < h)%nat -> (0 < d_k)%nat -> cols x = (h * d_k)%nat ->
  exists heads merged,
    split_heads x h d_k = Ok heads
    /\ length heads = h
    /\ (forall a i c, (a < h)%nat -> (c < d_k)%nat ->
          get (nth a heads (mk 0 0 (fun _ _ => 0))) i c
          = get x i (a * d_k + c))
    /\ merge_heads heads h d_k = Ok merged
    /\ rows merged = rows x /\ cols merged = cols x
    /\ forall i j, (j < cols x)%nat -> get merged i j = get x i j.
Proof.
  intros Hh Hd Hc. unfold split_heads, merge_heads.
  rewrite Hc, Nat.eqb_refl.
  destruct (Nat.eqb_spec (h * d_k) 0) as [H0|_]; [nia|].
  eexists. eexists. split; [reflexivity|].
  split; [now rewrite length_map, length_seq|].
  split.
  { intros a i c Ha Hcd. now rewrite nth_map_seq by exact Ha. }
  split; [reflexivity|]. cbn [rows cols get].
  destruct h as [|h']; [lia|]. cbn [seq List.map head rows].
  split; [reflexivity|]. split; [reflexivity|].
  intros i j Hj.
  destruct (div_mod_block j d_k (S h') Hd Hj) as (Ha & Hm & Heq).
  change (head x d_k 0 :: List.map (head x d_k) (seq 1 h'))
    with (List.map (head x d_k) (seq 0 (S h'))).
  rewrite nth_map_seq by exact Ha. cbn [head get]. now rewrite Heq.
Qed.

(** [split_merge_heads] on a tensor of four columns and two heads. *)
Lemma split_merge_heads_witness :
  exists heads merged,
    split_heads (mk 1 4 (fun _ j => INR j)) 2 2 = Ok heads
    /\ merge_heads heads 2 2 = Ok merged
    /\ get merged 0 3 = INR 3.
Proof.
  destruct (split_merge_heads (mk 1 4 (fun _ j => INR j)) 2 2)
    as (heads & merged & Hs & _ & _ & Hm & _ & _ & Hg);
    [lia | lia | reflexivity |].
  exists heads, merged. split; [exact Hs|]. split; [exact Hm|].
  apply (Hg 0%nat 3%nat). simpl. lia.
Defined.

Lemma attention_any_mask (query key value : tensor R)
    (mask : option (tensor Z)) (dropout : option (tensor R -> tensor R)) :
  Attention.inactive dropout ->
  cols query = cols key ->
  rows key = rows value ->
  mask_fits mask (rows query) (rows key) ->
  exists out w,
    Attention.attention query key value mask dropout = Ok (out, w)
    /\ rows out = rows query /\ cols out = cols value
    /\ rows w = rows query /\ cols w = rows key
    /\ ((0 < rows key)%nat -> forall i, row_sum w i = 1).
Proof.
  intros Hd Hqk Hkv Hmask.
  assert (Hret : exists out w,
            Attention.attention query key value mask dropout = Ok (out, w)).
  { destruct mask as [m|].
    - apply attention_returns; [exact Hd|].
      unfold Attention.shapes_ok. cbn [mask_fits] in Hmask.
      apply andb_prop in Hmask as [Hm1 Hm2].
      now rewrite Hm1, Hm2, Hqk, Hkv, !Nat.eqb_refl.
    - unfold Attention.attention, Attention.masked_scores, matmul at 1.
      simpl. rewrite Hqk, Nat.eqb_refl. simpl.
      rewrite inactive_dropout by exact Hd.
      unfold matmul. simpl. rewrite Hkv, Nat.eqb_refl. simpl. eauto. }
  destruct Hret as (out & w & Hatt). exists out, w.
  split; [exact Hatt|].
  destruct (attention_inv _ _ _ _ _ _ _ Hatt) as (s & Hs & Hw).
  rewrite inactive_dropout in Hw by exact Hd. subst w.
  destruct (masked_scores_shape _ _ _ _ Hs) as (Hr & Hc & _).
  destruct (attention_inv_out _ _ _ _ _ _ _ Hatt) as (_ & Hro & Hco & _).
  cbn [rows cols Tensor.softmax] in *.
  split; [congruence|]. split; [exact Hco|].
  split; [exact Hr|]. split; [exact Hc|].
  intros Hkeys i. apply softmax_row_sum. lia.
Qed.

Lemma split_heads_ok (x : tensor R) (h d_k : nat) :
  cols x = (h * d_k)%nat ->
  split_heads x h d_k = Ok (List.map (head x d_k) (seq 0 h)).
Proof.
  intros Hc. unfold split_heads. now rewrite Hc, Nat.eqb_refl.
Qed.

Lemma mapM_seq {B : Type} (f : nat -> result B) (P : nat -> B -> Prop) (d : B)
    (n : nat) :
  forall s,
  (forall a, (s <= a < s + n)%nat -> exists b, f a = Ok b /\ P a b) ->
  exists bs, mapM f (seq s n) = Ok bs
    /\ length bs = n
    /\ forall a, (a < n)%nat -> P (s + a)%nat (nth a bs d).
Proof.
  induction n as [|n IH]; intros s Hf.
  - exists []. repeat split. intros a Ha. lia.
  - destruct (Hf s) as (b & Hb & Pb); [lia|].
    destruct (IH (S s)) as (bs & Hbs & Hlen & Pbs).
    { intros a Ha. apply Hf. lia. }
    exists (b :: bs). cbn [seq mapM]. rewrite Hb, Hbs. cbn [Py.bind].
    split; [reflexivity|]. split; [simpl; lia|].
    intros [|a] Ha.
    + now rewrite Nat.add_0_r.
    + replace (s + S a)%nat with (S s + a)%nat by lia.
      apply Pbs. lia.
Qed.

(** A block as built accepts inputs of the model dimension. *)
Lemma multi_head_forward_ok (self : t) (q k v : tensor R)
    (mask : option (tensor Z)) :
  built self ->
  Layers.identity (dropout self) ->
  cols q = (h self * d_k self)%nat ->
  cols k = (h self * d_k self)%nat ->
  cols v = (h self * d_k self)%nat ->
  rows k = rows v ->
  mask_fits mask (rows q) (rows k) ->
  exists out scores,
    forward self q k v mask = Ok (out, scores)
    /\ rows out = rows q /\ cols out = (h self * d_k self)%nat
    /\ length scores = h self
    /\ forall a, (a < h self)%nat ->
         let w := nth a scores (mk 0 0 (fun _ _ => 0)) in
         rows w = rows q /\ cols w = rows k
         /\ ((0 < rows k)%nat -> forall i, row_sum w i = 1).
Proof.
  intros (Hh & Hd & Hlin) Hdrop Hq Hk Hv Hkv Hmask.
  inversion Hlin as [|? ? [Hqi Hqo] Hlin1]; subst.
  inversion Hlin1 as [|? ? [Hki Hko] Hlin2]; subst.
  inversion Hlin2 as [|? ? [Hvi Hvo] Hlin3]; subst.
  inversion Hlin3 as [|? ? [Hoi Hoo] _]; subst.
  clear Hlin Hlin1 Hlin2 Hlin3.
  unfold forward.
  destruct (linear_forward_spec (w_q self) q) as [Hlq _].
  destruct (linear_forward_spec (w_k self) k) as [Hlk _].
  destruct (linear_forward_spec (w_v self) v) as [Hlv _].
  destruct Hlq as (query & -> & Hrq & Hcq & _); [congruence|].
  destruct Hlk as (key & -> & Hrk & Hck & _); [congruence|].
  destruct Hlv as (value & -> & Hrv & Hcv & _); [congruence|].
  cbn [Py.bind]. rewrite Hqo in Hcq. rewrite Hko in Hck. rewrite Hvo in Hcv.
  rewrite !split_heads_ok by assumption. cbn [Py.bind].
  set (dflt := mk 0 0 (fun _ _ => 0)).
  destruct (mapM_seq
              (fun a => Attention.attention
                          (nth a (List.map (head query (d_k self))
                                           (seq 0 (h self))) dflt)
                          (nth a (List.map (head key (d_k self))
                                           (seq 0 (h self))) dflt)
                          (nth a (List.map (head value (d_k self))
                                           (seq 0 (h self))) dflt)
                          mask (Some (dropout self)))
              (fun _ r => rows (fst r) = rows q /\ cols (fst r) = d_k self
                          /\ rows (snd r) = rows q /\ cols (snd r) = rows k
                          /\ ((0 < rows k)%nat ->
                              forall i, row_sum (snd r) i = 1))
              (dflt, dflt) (h self) 0%nat)
    as (heads & -> & Hlen & Hheads).
  { intros a Ha. rewrite !nth_map_seq by lia.
    destruct (attention_any_mask (head query (d_k self) a)
                (head key (d_k self) a) (head value (d_k self) a)
                mask (Some (dropout self)))
      as (o & w & Hatt & Ho1 & Ho2 & Hw1 & Hw2 & Hsum).
    - exact Hdrop.
    - reflexivity.
    - cbn [head rows]. congruence.
    - cbn [head rows]. now rewrite Hrq, Hrk.
    - cbn [head rows cols] in *. exists (o, w). cbn [fst snd].
      rewrite Hrq in Ho1, Hw1. rewrite Hrk in Hw2, Hsum.
      split; [exact Hatt|]. repeat (split; [assumption|]). exact Hsum. }
  cbn [Py.bind]. unfold merge_heads.
  destruct (Nat.eqb_spec (h self * d_k self) 0) as [H0|_]; [nia|].
  cbn [Py.bind].
  set (x := mk _ _ _).
  assert (Hxr : rows x = rows q).
  { unfold x. cbn [rows]. destruct heads as [|r heads]; [simpl in Hlen; lia|].
    cbn [List.map]. destruct (Hheads 0%nat) as [Hr0 _]; [lia|]. exact Hr0. }
  destruct (linear_forward_spec (w_o self) x) as [Hlo _].
  destruct Hlo as (out & -> & Hro & Hco & _); [unfold x; cbn [cols]; congruence|].
  cbn [Py.bind]. exists out, (List.map snd heads).
  split; [reflexivity|]. split; [congruence|]. split; [congruence|].
  split; [now rewrite length_map|].
  intros a Ha.
  change dflt with (snd (dflt, dflt)). rewrite map_nth.
  destruct (Hheads a Ha) as (_ & _ & Hw1 & Hw2 & Hsum). auto.
Qed.

(** X20.  A multi-head attention block as [__init__] builds it, with its
    dropout in evaluation mode, raises a RuntimeError on queries that do
    not have the model dimension [h * d_k].  It accepts queries, keys and
    values of the model dimension with as many keys as values and a mask,
    if any, that broadcasts to (queries, keys): it then returns one output
    row of the model dimension per query and keeps one weight matrix per
    head, of shape (queries, keys), whose rows sum to 1 when there is a
    key. *)
Theorem multi_head_forward_shapes (self : t) (q k v : tensor R)
    (mask : option (tensor Z)) :
  built self ->
  Layers.identity (dropout self) ->
  (cols q <> (h self * d_k self)%nat ->
   forward self q k v mask = Raise RuntimeError)
  /\ (cols q = (h self * d_k self)%nat ->
      cols k = (h self * d_k self)%nat ->
      cols v = (h self * d_k self)%nat ->
      rows k = rows v ->
      mask_fits mask (rows q) (rows k) ->
      exists out scores,
        forward self q k v mask = Ok (out, scores)
        /\ rows out = rows q /\ cols out = (h self * d_k self)%nat
        /\ length scores = h self
        /\ forall a, (a < h self)%nat ->
             let w := nth a scores (mk 0 0 (fun _ _ => 0)) in
             rows w = rows q /\ cols w = rows k
             /\ ((0 < rows k)%nat -> forall i, row_sum w i = 1)).
Proof.
  intros Hb Hdrop. split.
  - intros Hq. destruct Hb as (_ & _ & Hlin).
    inversion Hlin as [|? ? [Hqi _] _]; subst.
    unfold forward.
    destruct (linear_forward_spec (w_q self) q) as [_ Hbad].
    rewrite Hbad by congruence. reflexivity.
  - intros Hq Hk Hv Hkv Hmask.
    now apply multi_head_forward_ok.
Qed.

(** [multi_head_forward_shapes] on a block of two heads of one feature,
    for two positions attending to themselves. *)
Lemma multi_head_forward_shapes_witness :
  exists out scores,
    forward LayerExamples.two_heads (Examples.full 2 2 1) (Examples.full 2 2 1)
            (Examples.full 2 2 1) (Some (to_int (casual_mask 2)))
    = Ok (out, scores)
    /\ rows out = 2%nat /\ cols out = 2%nat /\ length scores = 2%nat.
Proof.
  destruct (multi_head_forward_shapes LayerExamples.two_heads
              (Examples.full 2 2 1) (Examples.full 2 2 1)
              (Examples.full 2 2 1) (Some (to_int (casual_mask 2))))
    as [_ Hok].
  - split; [simpl; lia|]. split; [simpl; lia|].
    repeat constructor.
  - intros t. reflexivity.
  - destruct Hok as (out & scores & Hf & Hr & Hc & Hl & _);
      try reflexivity.
    exists out, scores. auto.
Defined.

End MultiHeadFacts.

(** ** Encoder and decoder stacks *)

Section StackFacts.

Local Open Scope R_scope.

Lemma add_same_shape (a b : tensor R) :
  rows b = rows a -> cols b = cols a ->
  exists y, Layers.add a b = Ok y /\ rows y = rows a /\ cols y = cols a.
Proof.
  intros Hr Hc. unfold Layers.add. rewrite Hr, Hc, !bsize_same.
  eexists. repeat split.
Qed.

Lemma residual_ok (self : ResidualConnection.t) (x z : tensor R)
    (sublayer : tensor R -> result (tensor R)) :
  Layers.identity (ResidualConnection.dropout self) ->
  sublayer (LayerNormalization.forward (ResidualConnection.norm self) x) = Ok z ->
  rows z = rows x -> cols z = cols x ->
  exists y, ResidualConnection.forward self x sublayer = Ok y
    /\ rows y = rows x /\ cols y = cols x.
Proof.
  intros Hd Hz Hr Hc. unfold ResidualConnection.forward.
  rewrite Hz. cbn [Py.bind]. rewrite Hd. now apply add_same_shape.
Qed.

Lemma feed_forward_ok (self : FeedForwardBlock.t) (x : tensor R) :
  Layers.identity (FeedForwardBlock.dropout self) ->
  cols x = LinearLayer.in_features (FeedForwardBlock.linear_1 self) ->
  LinearLayer.in_features (FeedForwardBlock.linear_2 self)
  = LinearLayer.out_features (FeedForwardBlock.linear_1 self) ->
  exists y, FeedForwardBlock.forward self x = Ok y
    /\ rows y = rows x
    /\ cols y = LinearLayer.out_features (FeedForwardBlock.linear_2 self).
Proof.
  intros Hd Hc H12. unfold FeedForwardBlock.forward.
  destruct (linear_forward_spec (FeedForwardBlock.linear_1 self) x)
    as [Hok _].
  destruct (Hok Hc) as (h & -> & Hrh & Hch & _). cbn [Py.bind].
  rewrite Hd.
  destruct (linear_forward_spec (FeedForwardBlock.linear_2 self)
              (Layers.relu h)) as [Hok2 _].
  destruct Hok2 as (y & -> & Hry & Hcy & _).
  - cbn [cols Layers.relu Tensor.map]. congruence.
  - exists y. cbn [rows Layers.relu Tensor.map] in Hry.
    split; [reflexivity|]. split; [congruence | exact Hcy].
Qed.

(** Self- or cross-attention as a sublayer: [x] attends to [memory]. *)
Lemma attention_sublayer_ok (attn : MultiHeadAttention.t)
    (x memory : tensor R) (mask : option (tensor Z)) (d : nat) :
  MultiHeadAttention.built attn ->
  (MultiHeadAttention.h attn * MultiHeadAttention.d_k attn = d)%nat ->
  Layers.identity (MultiHeadAttention.dropout attn) ->
  cols x = d -> cols memory = d ->
  MultiHeadAttention.mask_fits mask (rows x) (rows memory) ->
  exists z,
    (r <- MultiHeadAttention.forward attn x memory memory mask ;; Ok (fst r))
    = Ok z
    /\ rows z = rows x /\ cols z = d.
Proof.
  intros Hb Hd Hdrop Hx Hm Hmask.
  destruct (multi_head_forward_ok attn x memory memory mask)
    as (out & scores & -> & Hr & Hc & _); try congruence; try assumption.
  exists out. cbn [Py.bind fst]. split; [reflexivity|].
  split; [exact Hr | congruence].
Qed.

Lemma encoder_block_ok (self : EncoderBlock.t) (x : tensor R)
    (mask : option (tensor Z)) (d : nat) :
  EncoderBlock.built self d -> EncoderBlock.eval_mode self ->
  cols x = d ->
  MultiHeadAttention.mask_fits mask (rows x) (rows x) ->
  exists y, EncoderBlock.forward self x mask = Ok y
    /\ rows y = rows x /\ cols y = d.
Proof.
  intros (Hb & Hd & Hf1 & Hf12 & Hf2) (Ha & Hff & Hr0 & Hr1) Hx Hmask.
  unfold EncoderBlock.forward.
  set (nx := LayerNormalization.forward
               (ResidualConnection.norm (EncoderBlock.residual_0 self)) x).
  destruct (attention_sublayer_ok (EncoderBlock.self_attention_block self)
              nx nx mask d Hb Hd Ha Hx Hx Hmask) as (z & Hz & Hzr & Hzc).
  destruct (residual_ok (EncoderBlock.residual_0 self) x z
              (fun x =>
                 r <- MultiHeadAttention.forward
                        (EncoderBlock.self_attention_block self) x x x mask ;;
                 Ok (fst r)) Hr0 Hz)
    as (x1 & -> & Hr & Hc); [exact Hzr | congruence |].
  cbn [Py.bind].
  set (nx1 := LayerNormalization.forward
                (ResidualConnection.norm (EncoderBlock.residual_1 self)) x1).
  destruct (feed_forward_ok (EncoderBlock.feed_forward_block self) nx1 Hff)
    as (z1 & Hz1 & Hz1r & Hz1c);
    [cbn [nx1 cols LayerNormalization.forward]; congruence | exact Hf12 |].
  destruct (residual_ok (EncoderBlock.residual_1 self) x1 z1 _ Hr1 Hz1)
    as (y & -> & Hyr & Hyc).
  - exact Hz1r.
  - cbn [nx1 cols LayerNormalization.forward] in *. congruence.
  - exists y. split; [reflexivity|]. split; congruence.
Qed.

Lemma encoder_layers_ok (layers : list EncoderBlock.t) (d : nat)
    (mask : option (tensor Z)) :
  Forall (fun b => EncoderBlock.built b d /\ EncoderBlock.eval_mode b) layers ->
  forall x, cols x = d ->
  MultiHeadAttention.mask_fits mask (rows x) (rows x) ->
  exists y, Encoder.apply_layers layers x mask = Ok y
    /\ rows y = rows x /\ cols y = d.
Proof.
  induction 1 as [|b layers [Hb He] _ IH]; intros x Hx Hmask.
  - exists x. repeat split. exact Hx.
  - cbn [Encoder.apply_layers].
    destruct (encoder_block_ok b x mask d Hb He Hx Hmask)
      as (x1 & -> & Hr & Hc).
    cbn [Py.bind].
    destruct (IH x1 Hc) as (y & Hy & Hyr & Hyc); [now rewrite Hr|].
    exists y. split; [exact Hy|]. split; congruence.
Qed.



Lemma decoder_block_ok (self : DecoderBlock.t) (x encoder_output : tensor R)
    (src_mask tgt_mask : option (tensor Z)) (d : nat) :
  DecoderBlock.built self d -> DecoderBlock.eval_mode self ->
  cols x = d -> cols encoder_output = d ->
  MultiHeadAttention.mask_fits tgt_mask (rows x) (rows x) ->
  MultiHeadAttention.mask_fits src_mask (rows x) (rows encoder_output) ->
  exists y,
    DecoderBlock.forward self x encoder_output src_mask tgt_mask = Ok y
    /\ rows y = rows x /\ cols y = d.
Proof.
  intros (Hb & Hd & Hcb & Hcd & Hf1 & Hf12 & Hf2)
         (Ha & Hca & Hff & Hr0 & Hr1 & Hr2) Hx He Htgt Hsrc.
  unfold DecoderBlock.forward.
  set (nx := LayerNormalization.forward
               (ResidualConnection.norm (DecoderBlock.residual_0 self)) x).
  destruct (attention_sublayer_ok (DecoderBlock.self_attention_block self)
              nx nx tgt_mask d Hb Hd Ha Hx Hx Htgt) as (z & Hz & Hzr & Hzc).
  destruct (residual_ok (DecoderBlock.residual_0 self) x z
              (fun x =>
                 r <- MultiHeadAttention.forward
                        (DecoderBlock.self_attention_block self) x x x
                        tgt_mask ;;
                 Ok (fst r)) Hr0 Hz)
    as (x1 & -> & Hr & Hc); [exact Hzr | congruence |].
  cbn [Py.bind].
  set (nx1 := LayerNormalization.forward
                (ResidualConnection.norm (DecoderBlock.residual_1 self)) x1).
  destruct (attention_sublayer_ok (DecoderBlock.cross_attention_block self)
              nx1 encoder_output src_mask d Hcb Hcd Hca)
    as (z1 & Hz1 & Hz1r & Hz1c).
  { cbn [nx1 cols LayerNormalization.forward]. congruence. }
  { exact He. }
  { cbn [nx1 rows LayerNormalization.forward]. now rewrite Hr. }
  destruct (residual_ok (DecoderBlock.residual_1 self) x1 z1
              (fun x =>
                 r <- MultiHeadAttention.forward
                        (DecoderBlock.cross_attention_block self) x
                        encoder_output encoder_output src_mask ;;
                 Ok (fst r)) Hr1 Hz1)
    as (x2 & -> & Hr' & Hc'); [exact Hz1r | congruence |].
  cbn [Py.bind].
  set (nx2 := LayerNormalization.forward
                (ResidualConnection.norm (DecoderBlock.residual_2 self)) x2).
  destruct (feed_forward_ok (DecoderBlock.feed_forward_block self) nx2 Hff)
    as (z2 & Hz2 & Hz2r & Hz2c);
    [cbn [nx2 cols LayerNormalization.forward]; congruence | exact Hf12 |].
  destruct (residual_ok (DecoderBlock.residual_2 self) x2 z2 _ Hr2 Hz2)
    as (y & -> & Hyr & Hyc).
  - exact Hz2r.
  - cbn [nx2 cols LayerNormalization.forward] in *. congruence.
  - exists y. split; [reflexivity|]. split; congruence.
Qed.

Lemma decoder_layers_ok (layers : list DecoderBlock.t) (d : nat)
    (encoder_output : tensor R) (src_mask tgt_mask : option (tensor Z)) :
  Forall (fun b => DecoderBlock.built b d /\ DecoderBlock.eval_mode b) layers ->
  cols encoder_output = d ->
  forall x, cols x = d ->
  MultiHeadAttention.mask_fits tgt_mask (rows x) (rows x) ->
  MultiHeadAttention.mask_fits src_mask (rows x) (rows encoder_output) ->
  exists y,
    Decoder.apply_layers layers x encoder_output src_mask tgt_mask = Ok y
    /\ rows y = rows x /\ cols y = d.
Proof.
  induction 1 as [|b layers [Hb He] _ IH]; intros Henc x Hx Htgt Hsrc.
  - exists x. repeat split. exact Hx.
  - cbn [Decoder.apply_layers].
    destruct (decoder_block_ok b x encoder_output src_mask tgt_mask d
                Hb He Hx Henc Htgt Hsrc) as (x1 & -> & Hr & Hc).
    cbn [Py.bind].
    destruct (IH Henc x1 Hc) as (y & Hy & Hyr & Hyc);
      [now rewrite Hr | now rewrite Hr |].
    exists y. split; [exact Hy|]. split; congruence.
Qed.



End StackFacts.

(** ** The transformer: encode, decode, project *)

Section TransformerFacts.

Import TransformerModel.
Local Open Scope R_scope.

Lemma embeddings_ok (self : InputEmbeddings.t) (x : list Z) :
  (forall id, In id x ->
     (0 <= id < Z.of_nat (InputEmbeddings.vocab_size self))%Z) ->
  exists y, InputEmbeddings.forward self x = Ok y
    /\ rows y = length x /\ cols y = InputEmbeddings.d_model self.
Proof.
  intros Hids. unfold InputEmbeddings.forward, InputEmbeddings.lookup.
  assert (Hall : forallb (InputEmbeddings.in_vocab self) x = true).
  { apply forallb_forall. intros id Hid. specialize (Hids id Hid).
    unfold InputEmbeddings.in_vocab.
    apply andb_true_intro. split; [apply Z.leb_le | apply Z.ltb_lt]; lia. }
  rewrite Hall. cbn [Py.bind]. eexists. repeat split.
Qed.

Lemma positional_ok (self : PositionalEncodingLayer.t) (x : tensor R)
    (d seq_len : nat) :
  PositionalEncoding.init d seq_len = Ok (PositionalEncodingLayer.pe self) ->
  Layers.identity (PositionalEncodingLayer.dropout self) ->
  (rows x <= seq_len)%nat -> cols x = d ->
  exists y, PositionalEncodingLayer.forward self x = Ok y
    /\ rows y = rows x /\ cols y = d.
Proof.
  intros Htab Hd Hrows Hcols.
  destruct (init_inv _ _ _ Htab) as (Hr & Hc & _).
  unfold PositionalEncodingLayer.forward, Layers.add,
    PositionalEncodingLayer.first_rows.
  cbn [rows cols]. rewrite Hr, Hc, Nat.min_l, Hcols, !bsize_same by exact Hrows.
  cbn [Py.bind]. rewrite Hd. eexists. repeat split.
Qed.

(** X23.  The whole pipeline, for a transformer assembled for a model
    dimension [d] of at least 2 with every dropout in evaluation mode and
    the [eps] of every normalization layer above 0, as [LayerNormalization()]
    sets it: source and target ids within their vocabularies, sequences no longer
    than the positional tables and masks that broadcast to the attention
    shapes are encoded, decoded and projected without an error; the encoder
    output has one row of [d] features per source token, and the projection
    one row per target token, each row holding the logarithms of a
    probability distribution over the target vocabulary. *)
Theorem transformer_pipeline (self : t) (d src_len tgt_len : nat)
    (src tgt : list Z) (src_mask tgt_mask : option (tensor Z)) :
  built self d src_len tgt_len ->
  (2 <= d)%nat ->
  Forall (fun n => 0 < LayerNormalization.eps n) (norms self) ->
  (forall id, In id src ->
     (0 <= id < Z.of_nat (InputEmbeddings.vocab_size (src_embed self)))%Z) ->
  (forall id, In id tgt ->
     (0 <= id < Z.of_nat (InputEmbeddings.vocab_size (tgt_embed self)))%Z) ->
  (length src <= src_len)%nat -> (length tgt <= tgt_len)%nat ->
  MultiHeadAttention.mask_fits src_mask (length src) (length src) ->
  MultiHeadAttention.mask_fits src_mask (length tgt) (length src) ->
  MultiHeadAttention.mask_fits tgt_mask (length tgt) (length tgt) ->
  let vocab := LinearLayer.out_features
                 (ProjectionLayer.proj (projection_layer self)) in
  (0 < vocab)%nat ->
  exists enc dec out,
    encode self src src_mask = Ok enc
    /\ rows enc = length src /\ cols enc = d
    /\ decode self enc src_mask tgt tgt_mask = Ok dec
    /\ rows dec = length tgt /\ cols dec = d
    /\ project self dec = Ok out
    /\ rows out = length tgt /\ cols out = vocab
    /\ forall i, sum_n (fun j => exp (get out i j)) vocab = 1.
Proof.
  intros (Henc & Hdec & Hse & Hte & Hsp & Htp & Hsd & Htd & Hproj)
         Hd2 Heps Hsrc Htgt Hsl Htl Hm1 Hm2 Hm3 vocab Hv.
  assert (He : exists enc, encode self src src_mask = Ok enc
                 /\ rows enc = length src /\ cols enc = d).
  { unfold encode.
    destruct (embeddings_ok (src_embed self) src Hsrc)
      as (e1 & -> & Hr1 & Hc1).
    cbn [Py.bind].
    destruct (positional_ok (src_pos self) e1 d src_len Hsp Hsd)
      as (p1 & -> & Hr2 & Hc2); [lia | congruence |].
    cbn [Py.bind].
    destruct (encoder_layers_ok _ d src_mask Henc p1 Hc2)
      as (l1 & Hl1 & Hr3 & Hc3); [now rewrite Hr2, Hr1|].
    unfold Encoder.forward. rewrite Hl1. cbn [Py.bind].
    eexists. split; [reflexivity|].
    cbn [rows cols LayerNormalization.forward]. split; congruence. }
  destruct He as (enc & He & Her & Hec).
  assert (Hd : exists dec, decode self enc src_mask tgt tgt_mask = Ok dec
                 /\ rows dec = length tgt /\ cols dec = d).
  { unfold decode.
    destruct (embeddings_ok (tgt_embed self) tgt Htgt)
      as (e2 & -> & Hr4 & Hc4).
    cbn [Py.bind].
    destruct (positional_ok (tgt_pos self) e2 d tgt_len Htp Htd)
      as (p2 & -> & Hr5 & Hc5); [lia | congruence |].
    cbn [Py.bind].
    destruct (decoder_layers_ok _ d enc src_mask tgt_mask Hdec Hec p2 Hc5)
      as (l2 & Hl2 & Hr6 & Hc6).
    { now rewrite Hr5, Hr4. }
    { now rewrite Hr5, Hr4, Her. }
    unfold Decoder.forward. rewrite Hl2. cbn [Py.bind].
    eexists. split; [reflexivity|].
    cbn [rows cols LayerNormalization.forward]. split; congruence. }
  destruct Hd as (dec & Hd & Hdr & Hdc).
  unfold project, ProjectionLayer.forward.
  destruct (linear_forward_spec (ProjectionLayer.proj (projection_layer self))
              dec) as [Hok _].
  destruct Hok as (z & Hz & Hzr & Hzc); [congruence|].
  destruct Hzc as [Hzc _].
  exists enc, dec, (Layers.log_softmax z).
  rewrite Hz. cbn [Py.bind rows cols Layers.log_softmax].
  split; [exact He|]. split; [exact Her|]. split; [exact Hec|].
  split; [exact Hd|]. split; [exact Hdr|]. split; [exact Hdc|].
  split; [reflexivity|]. split; [congruence|]. split; [exact Hzc|].
  intros i. fold vocab in Hzc. rewrite <- Hzc.
  apply log_softmax_distribution. lia.
Qed.

(** [transformer_pipeline] on a transformer of two features with one
    encoder and one decoder block, for two source tokens and one target
    token. *)
Lemma transformer_pipeline_witness :
  exists pe enc dec out,
    PositionalEncoding.init 2 3 = Ok pe
    /\ encode (LayerExamples.toy_transformer pe) [2; 3]%Z None = Ok enc
    /\ decode (LayerExamples.toy_transformer pe) enc None [2]%Z
              (Some (to_int (casual_mask 1))) = Ok dec
    /\ project (LayerExamples.toy_transformer pe) dec = Ok out
    /\ rows out = 1%nat /\ cols out = 2%nat.
Proof.
  destruct (init_returns 2 3) as [pe Hpe]; [lia | reflexivity |].
  destruct (transformer_pipeline (LayerExamples.toy_transformer pe) 2 3 3
              [2; 3]%Z [2]%Z None (Some (to_int (casual_mask 1))))
    as (enc & dec & out & He & _ & _ & Hd & _ & _ & Ho & Hr & Hc & _).
  - repeat split; try exact Hpe; try (intros t; reflexivity);
      repeat constructor; try (intros t; reflexivity); simpl; lia.
  - lia.
  - repeat constructor; simpl; lra.
  - intros id [<-|[<-|[]]]; simpl; lia.
  - intros id [<-|[]]; simpl; lia.
  - simpl. lia.
  - simpl. lia.
  - exact I.
  - exact I.
  - reflexivity.
  - simpl. lia.
  - exists pe, enc, dec, out. auto 10.
Defined.

End TransformerFacts.

(** ** Validation *)

Section ValidationFacts.

Import Greedy Validation.
Local Open Scope Z_scope.

Variables Enc Hidden : Type.
Variable model : Transformer Enc Hidden.
Variables tokenizer_src tokenizer_tgt : Tokenizer.
Variable decode_ids : list Z -> string.
Variables max_len num_examples : Z.
Variable fuel : nat.

Hypothesis model_ok : well_shaped model.
Hypothesis max_len_pos : 1 <= max_len.
Hypothesis enough_fuel : (Z.to_nat max_len <= fuel)%nat.

Lemma greedy_returns (source source_mask : list Z) :
  exists seq,
    fst (run (greedy_decode fuel model source source_mask tokenizer_src
                            tokenizer_tgt max_len)) = Returned seq.
Proof.
  rewrite decode_run_loop.
  apply loop_returns; try assumption; simpl; try lia. discriminate.
Qed.

Ltac case_bools :=
  repeat match goal with
         | |- context [(?a <? ?b)%Z] => destruct (Z.ltb_spec a b)
         | |- context [(?a <=? ?b)%Z] => destruct (Z.leb_spec a b)
         end;
  cbn [andb]; simpl length in *; lia.

Lemma validation_loop_count (validation_ds : list batch) :
  Forall (fun b : batch => length b = 1%nat) validation_ds ->
  forall (count : Z) (printed : list string),
  0 <= count ->
  exists out,
    validation_loop fuel model validation_ds tokenizer_src tokenizer_tgt
                    decode_ids max_len num_examples count printed
    = Returned out
    /\ length out
       = (length printed
          + 4 * (if ((count <? num_examples)
                     && (num_examples - count
                         <=? Z.of_nat (length validation_ds)))%Z
                 then Z.to_nat (num_examples - count)
                 else length validation_ds))%nat.
Proof.
  induction 1 as [|b rest Hb _ IH]; intros count printed Hcount.
  - exists printed. split; [reflexivity|].
    destruct (_ && _)%bool eqn:E; [|simpl; lia].
    apply andb_prop in E as [E1 E2].
    apply Z.ltb_lt in E1. apply Z.leb_le in E2. simpl in E2. lia.
  - destruct b as [|it [|it' b]]; try discriminate Hb.
    cbn [validation_loop].
    destruct (greedy_returns (Dataset.encoder_input it)
                (Dataset.encoder_mask it)) as [seq ->].
    set (printed' := printed ++ _).
    assert (Hlen : length printed' = (length printed + 4)%nat)
      by (unfold printed'; rewrite length_app; reflexivity).
    destruct (Z.eqb_spec (count + 1) num_examples) as [Heq|Hne].
    + exists printed'. split; [reflexivity|]. rewrite Hlen.
      case_bools.
    + destruct (IH (count + 1) printed') as (out & -> & Hout); [lia|].
      exists out. split; [reflexivity|]. rewrite Hout, Hlen.
      case_bools.
Qed.

(** X24.  Validation over batches of one example each, with a model whose
    outputs are never empty, [max_len] of 1 or more and enough fuel for
    each decoding: the run prints four messages per example it handles.
    It handles [num_examples] examples when that number is between 1 and
    the number of batches, and every batch otherwise, in particular when
    [num_examples] is 0 or negative.  A first batch that does not hold
    exactly one example raises an AssertionError. *)
Theorem run_validation_count (validation_ds : list batch) :
  (Forall (fun b : batch => length b = 1%nat) validation_ds ->
   exists printed,
     run_validation fuel model validation_ds tokenizer_src tokenizer_tgt
                    decode_ids max_len num_examples = Returned printed
     /\ length printed
        = (4 * handled num_examples (length validation_ds))%nat)
  /\ (forall b rest, validation_ds = b :: rest -> length b <> 1%nat ->
        run_validation fuel model validation_ds tokenizer_src tokenizer_tgt
                       decode_ids max_len num_examples
        = Raised AssertionError).
Proof.
  split.
  - intros Hall. unfold run_validation, handled.
    destruct (validation_loop_count validation_ds Hall 0 []) as (out & -> & Hout);
      [lia|].
    exists out. split; [reflexivity|]. rewrite Hout. simpl length at 1.
    rewrite Z.sub_0_r.
    destruct (Z.ltb_spec 0 num_examples); destruct (Z.leb_spec 1 num_examples);
      try lia; reflexivity.
  - intros b rest -> Hb. unfold run_validation. cbn [validation_loop].
    destruct b as [|it [|it' b]]; [reflexivity | contradiction | reflexivity].
Qed.

End ValidationFacts.

Section ValidationExamples.

Import Greedy Validation.

(** [run_validation_count] on three batches of one example: asked for two
    examples the run prints eight messages, asked for none it prints
    twelve. *)
Lemma run_validation_count_witness :
  (exists printed,
     run_validation 4 never_eos_model MoreExamples.three_batches special_ids
                    special_ids (fun _ => EmptyString) 4 2 = Returned printed
     /\ length printed = 8)
  /\ (exists printed,
        run_validation 4 never_eos_model MoreExamples.three_batches
                       special_ids special_ids (fun _ => EmptyString) 4 0
        = Returned printed
        /\ length printed = 12).
Proof.
  assert (Hws : well_shaped never_eos_model).
  { split.
    - intros e m tgt tm Htgt. destruct tgt; [contradiction | discriminate].
    - intros x. discriminate. }
  assert (Hall : Forall (fun b : batch => length b = 1)
                        MoreExamples.three_batches)
    by (repeat constructor).
  split.
  - destruct (run_validation_count unit unit never_eos_model special_ids
                special_ids (fun _ => EmptyString) 4 2 4 Hws ltac:(lia)
                ltac:(simpl; lia) MoreExamples.three_batches) as [Hok _].
    destruct (Hok Hall) as (printed & Hrun & Hlen).
    exists printed. split; [exact Hrun | exact Hlen].
  - destruct (run_validation_count unit unit never_eos_model special_ids
                special_ids (fun _ => EmptyString) 4 0 4 Hws ltac:(lia)
                ltac:(simpl; lia) MoreExamples.three_batches) as [Hok _].
    destruct (Hok Hall) as (printed & Hrun & Hlen).
    exists printed. split; [exact Hrun | exact Hlen].
Defined.

End ValidationExamples.
